(** * Final_Project.py: the Starbucks store dashboard, data layer

    A shallow embedding of the data preparation, the filter and the
    aggregations of [Final_Project.py].  A pandas DataFrame is a list of
    rows in index order; a missing value (NaN) is [None]; a Python
    exception is the [Raise] branch of [result].  Plotting, widgets and
    CSV reading are not modelled. *)

From Stdlib Require Import ZArith Ascii String.
From stdpp Require Import base list strings sorting.

Open Scope string_scope.
Open Scope list_scope.
Open Scope nat_scope.

(** ** Exceptions *)

Inductive exn := ValueError | AttributeError | KeyError | IndexError.

Inductive result (A : Type) :=
  | Ok (a : A)
  | Raise (e : exn).
Arguments Ok {A} a.
Arguments Raise {A} e.

Definition bind {A B} (r : result A) (k : A -> result B) : result B :=
  match r with
  | Ok a => k a
  | Raise e => Raise e
  end.

Notation "'do' x <- r 'in' k" := (bind r (fun x => k))
  (at level 10, x name, r at level 100, k at level 200).

(** [Series.apply(f)]: the function is run on the values in index order
    and the first exception aborts the whole call. *)
Fixpoint apply {A B} (f : A -> result B) (l : list A) : result (list B) :=
  match l with
  | [] => Ok []
  | a :: l' => do b <- f a in do bs <- apply f l' in Ok (b :: bs)
  end.

(** ** Python string operations used by the density lambda *)

(** [s.split(sep)] for a one-character separator: never empty, and an
    empty string gives one empty segment. *)
Fixpoint split (sep : ascii) (s : string) : list string :=
  match s with
  | EmptyString => [EmptyString]
  | String c s' =>
      if Ascii.eqb c sep then EmptyString :: split sep s'
      else match split sep s' with
           | [] => [String c EmptyString]
           | seg :: segs => String c seg :: segs
           end
  end.

(** [l[-1]]: the last element, IndexError on an empty list. *)
Definition index_last {A} (l : list A) : result A :=
  match last l with
  | Some a => Ok a
  | None => Raise IndexError
  end.

(** The characters [int()] skips around the literal (ASCII strings). *)
Definition is_space (c : ascii) : bool :=
  let n := nat_of_ascii c in
  (n =? 32)%nat || ((9 <=? n)%nat && (n <=? 13)%nat).

Definition digit_of (c : ascii) : option Z :=
  let n := nat_of_ascii c in
  if ((48 <=? n)%nat && (n <=? 57)%nat)%bool then Some (Z.of_nat (n - 48))
  else None.

(** The digit part of a decimal literal: digits, with single underscores
    allowed between two digits. [prev] tells whether the previous
    character was a digit. *)
Fixpoint digits (acc : Z) (prev : bool) (l : list ascii) : option Z :=
  match l with
  | [] => if prev then Some acc else None
  | c :: l' =>
      match digit_of c with
      | Some d => digits (10 * acc + d) true l'
      | None =>
          if (Ascii.eqb c "_" && prev)%bool then digits acc false l'
          else None
      end
  end.

Fixpoint lstrip (l : list ascii) : list ascii :=
  match l with
  | c :: l' => if is_space c then lstrip l' else l
  | [] => []
  end.

Definition strip (l : list ascii) : list ascii :=
  rev (lstrip (rev (lstrip l))).

Definition signed_digits (l : list ascii) : option Z :=
  match l with
  | c :: l' =>
      if Ascii.eqb c "+" then digits 0 false l'
      else if Ascii.eqb c "-" then Z.opp <$> digits 0 false l'
      else digits 0 false l
  | [] => None
  end.

(** CPython's default limit on the number of digits of a decimal
    literal ([sys.int_info.default_max_str_digits]). *)
Definition max_str_digits : nat := 4300.

Definition count_digits (l : list ascii) : nat :=
  length (List.filter (fun c => match digit_of c with
                                | Some _ => true
                                | None => false
                                end) l).

(** [int(s)] on an ASCII string, base 10: [None] stands for the
    ValueError Python raises. *)
Definition parse_int (s : string) : option Z :=
  let l := strip (list_ascii_of_string s) in
  if (count_digits l <=? max_str_digits)%nat then signed_digits l else None.

Definition int (s : string) : result Z :=
  match parse_int s with
  | Some n => Ok n
  | None => Raise ValueError
  end.

(** ** Density category (line 35) *)

Inductive density := HighDensity | LowDensity.

Definition density_label (d : density) : string :=
  match d with
  | HighDensity => "High Density"
  | LowDensity => "Low Density"
  end.

(** The final '-'-separated segment of a store identifier. *)
Definition suffix (x : string) : result string :=
  index_last (split "-" x).

(** [lambda x: 'High Density' if int(x.split('-')[-1]) > 1000 else
    'Low Density'].  The cell is a string or missing, as [read_csv] leaves a
    column that holds text.  A missing StoreNumber reaches the lambda as a float,
    which has no [split]: AttributeError. *)
Definition density_category (x : option string) : result density :=
  match x with
  | None => Raise AttributeError
  | Some s =>
      do seg <- suffix s in
      do n <- int seg in
      Ok (if (n >? 1000)%Z then HighDensity else LowDensity)
  end.

(** ** The table *)

(** One store record.  [C] is the type of a coordinate cell (it changes
    when the coordinates are coerced) and [D] the type of the
    'Density Category' cell ([unit] while the column does not exist).
    Text cells are [None] when the CSV field is empty (NaN). *)
Record Row (C D : Type) := mkRow {
  StoreNumber : option string;
  lat : C;
  lon : C;
  CountryCode : option string;
  City : option string;
  OwnershipType : option string;
  FirstSeen : option string;
  Name : option string;
  Density_Category : D
}.
Arguments mkRow {C D}.
Arguments StoreNumber {C D}.
Arguments lat {C D}.
Arguments lon {C D}.
Arguments CountryCode {C D}.
Arguments City {C D}.
Arguments OwnershipType {C D}.
Arguments FirstSeen {C D}.
Arguments Name {C D}.
Arguments Density_Category {C D}.

(** A coordinate cell as [read_csv] leaves it: a number, an empty field,
    or text when the column did not parse as numbers.  [F] is float64. *)
Inductive raw_coord (F : Type) :=
  | RawNum (x : F)
  | RawNaN
  | RawText (s : string).
Arguments RawNum {F}.
Arguments RawNaN {F}.
Arguments RawText {F}.

(** A cell seen as a Python value, as [isin] compares it. *)
Inductive value (F : Type) :=
  | NaN
  | Str (s : string)
  | Num (x : F).
Arguments NaN {F}.
Arguments Str {F}.
Arguments Num {F}.

Global Instance value_eq_dec {F} `{EqDecision F} : EqDecision (value F).
Proof. solve_decision. Defined.

Definition of_text {F} (c : option string) : value F :=
  match c with
  | Some s => Str s
  | None => NaN
  end.

Definition of_num {F} (c : option F) : value F :=
  match c with
  | Some x => Num x
  | None => NaN
  end.

Section Frame.
Context {F : Type} `{EqDecision F}.

(** The loaded table after lines 30-35. *)
Definition Store := Row (option F) density.

(** [data[column]]: the column's cell of each row, KeyError ([None])
    for a name the table does not have. *)
Definition column_of (column : string) : option (Store -> value F) :=
  if String.eqb column "StoreNumber" then Some (fun r => of_text (StoreNumber r))
  else if String.eqb column "lat" then Some (fun r => of_num (lat r))
  else if String.eqb column "lon" then Some (fun r => of_num (lon r))
  else if String.eqb column "CountryCode" then Some (fun r => of_text (CountryCode r))
  else if String.eqb column "City" then Some (fun r => of_text (City r))
  else if String.eqb column "OwnershipType" then Some (fun r => of_text (OwnershipType r))
  else if String.eqb column "FirstSeen" then Some (fun r => of_text (FirstSeen r))
  else if String.eqb column "Name" then Some (fun r => of_text (Name r))
  else if String.eqb column "Density Category"
       then Some (fun r => Str (density_label (Density_Category r)))
  else None.

(** [Series.isin(values)]: a cell is kept when it equals one of the
    values; NaN matches a NaN among the values. *)
Definition isin (values : list (value F)) (v : value F) : Prop :=
  v ∈ values.

Global Instance isin_dec values v : Decision (isin values v).
Proof. unfold isin. apply _. Defined.

(** [filter_data] (lines 23-24): [data[data[column].isin(values)]]. *)
Definition filter_data (data : list Store) (column : string)
    (values : list (value F)) : result (list Store) :=
  match column_of column with
  | None => Raise KeyError
  | Some cell => Ok (filter (fun r => isin values (cell r)) data)
  end.

(** Lines 40-50: the country filter, then the city filter when the
    multiselect is not empty. *)
Definition filtered_data (df : list Store) (selected_country : value F)
    (selected_cities : list (value F)) : result (list Store) :=
  do by_country <- filter_data df "CountryCode" [selected_country] in
  match selected_cities with
  | [] => Ok by_country
  | _ :: _ => filter_data by_country "City" selected_cities
  end.

(** ** Data preparation (lines 30-35) *)

(** [pd.to_numeric(_, errors='coerce')] on one cell; [parse] is the
    library's number parser. *)
Definition to_numeric (parse : string -> option F) (c : raw_coord F)
    : option F :=
  match c with
  | RawNum x => Some x
  | RawNaN => None
  | RawText s => parse s
  end.

Definition set_coords {C C' D} (f : C -> C') (r : Row C D) : Row C' D :=
  mkRow (StoreNumber r) (f (lat r)) (f (lon r)) (CountryCode r) (City r)
        (OwnershipType r) (FirstSeen r) (Name r) (Density_Category r).

Definition set_density {C D D'} (r : Row C D) (d : D') : Row C D' :=
  mkRow (StoreNumber r) (lat r) (lon r) (CountryCode r) (City r)
        (OwnershipType r) (FirstSeen r) (Name r) d.

(** What coercing one cell to a number means, case by case: [c'] is the
    cell [c] coerced. *)
Definition coerced (parse : string -> option F) (c : raw_coord F)
    (c' : option F) : Prop :=
  (forall x, c = RawNum x -> c' = Some x)
  /\ (forall s x, c = RawText s -> parse s = Some x -> c' = Some x)
  /\ (forall s, c = RawText s -> parse s = None -> c' = None)
  /\ (c = RawNaN -> c' = None).

(** Lines 31-32. *)
Definition coerce_coordinates (parse : string -> option F)
    (raw : list (Row (raw_coord F) unit)) : list (Row (option F) unit) :=
  set_coords (to_numeric parse) <$> raw.

(** Line 35: the lambda is applied to the whole StoreNumber column,
    then the new column is attached. *)
Definition add_density {C} (rows : list (Row C unit))
    : result (list (Row C density)) :=
  do cats <- apply density_category (StoreNumber <$> rows) in
  Ok (zip_with set_density rows cats).

Definition prepare (parse : string -> option F)
    (raw : list (Row (raw_coord F) unit)) : result (list Store) :=
  add_density (coerce_coordinates parse raw).

End Frame.

(** ** Sorting *)

(** Insertion sort: an element goes in front of the first element it is
    [leb]-below, so elements that compare equal keep their order. *)
Fixpoint insert_sorted {A} (leb : A -> A -> bool) (x : A) (l : list A)
    : list A :=
  match l with
  | [] => [x]
  | y :: l' => if leb x y then x :: l else y :: insert_sorted leb x l'
  end.

Fixpoint isort {A} (leb : A -> A -> bool) (l : list A) : list A :=
  match l with
  | [] => []
  | x :: l' => insert_sorted leb x (isort leb l')
  end.

(** Descending order of a [nat] key. *)
Definition desc {A} (key : A -> nat) (a b : A) : Prop := (key b <= key a)%nat.
Definition desc_leb {A} (key : A -> nat) (a b : A) : bool := (key b <=? key a)%nat.

Definition stable_sort_desc {A} (key : A -> nat) (l : list A) : list A :=
  isort (desc_leb key) l.

(** [sort_values(ascending=False)] as the script calls it, with the
    default [kind='quicksort'].  pandas documents the result (the same
    entries, in descending order of the key) and that only
    [kind='mergesort'] and [kind='stable'] keep equal keys in their input
    order; the order the default leaves them in depends on the NumPy
    build.  The aggregations therefore take the sort as this interface:
    any rearrangement into descending order.  [stable_sorter] below is the
    instance that keeps ties in input order, [numpy_sorter] the one that
    sorts as NumPy's scalar quicksort does. *)
Record Sorter := {
  sort_desc : forall A : Type, (A -> nat) -> list A -> list A;
  sort_desc_perm : forall A (key : A -> nat) l, sort_desc A key l ≡ₚ l;
  sort_desc_sorted : forall A (key : A -> nat) l,
      StronglySorted (desc key) (sort_desc A key l)
}.
Arguments sort_desc _ {A} key l.

(** A sort is stable when it agrees with the stable one. *)
Definition is_stable (srt : Sorter) : Prop :=
  forall A (key : A -> nat) (l : list A),
    sort_desc srt key l = stable_sort_desc key l.

(** ** The default sort of the library *)

Global Instance desc_dec {A} (key : A -> nat) : RelDecision (desc key).
Proof. intros a b. unfold desc. apply _. Defined.

(** With the default [kind='quicksort'], [sort_values] reaches NumPy's
    [argsort], whose quicksort for 64-bit integers is the introsort
    [aquicksort] of npysort/quicksort (the scalar code, which every
    NumPy build runs where it has no vectorised sort for the type): it
    rearranges an array [a] of positions into the array [v] of keys,
    partitions a range around a median of three while the range holds
    more than [SMALL_QUICKSORT] positions past its first, and finishes
    each range with an insertion sort.  Cells are read with [nth _ _ 0];
    every read the algorithm makes is inside the array. *)
Definition SMALL_QUICKSORT : nat := 16.

(** [v[a[p]]]. *)
Definition key_at (v a : list nat) (p : nat) : nat := nth (nth p a 0) v 0.

(** [INTP_SWAP(a[i], a[j])]. *)
Definition intp_swap (a : list nat) (i j : nat) : list nat :=
  <[i := nth j a 0]> (<[j := nth i a 0]> a).

(** [do ++pi; while (v[*pi] < vp);], entered with [pi] already moved. *)
Fixpoint scan_up (fuel : nat) (v a : list nat) (vp pi : nat) : nat :=
  match fuel with
  | 0 => pi
  | S fuel => if key_at v a pi <? vp then scan_up fuel v a vp (S pi) else pi
  end.

(** [do --pj; while (vp < v[*pj]);], entered with [pj] already moved. *)
Fixpoint scan_down (fuel : nat) (v a : list nat) (vp pj : nat) : nat :=
  match fuel with
  | 0 => pj
  | S fuel => if vp <? key_at v a pj then scan_down fuel v a vp (pj - 1) else pj
  end.

(** The [for (;;)] loop of the partition: both scans, [break] when they
    meet, a swap otherwise.  Returns the array and the final [pi]. *)
Fixpoint partition_loop (fuel : nat) (v a : list nat) (vp pi pj : nat)
    : list nat * nat :=
  match fuel with
  | 0 => (a, pi)
  | S fuel =>
      let pi := scan_up (length a) v a vp (S pi) in
      let pj := scan_down (length a) v a vp (pj - 1) in
      if pj <=? pi then (a, pi)
      else partition_loop fuel v (intp_swap a pi pj) vp pi pj
  end.

(** The three conditional swaps that put the median at [pm]. *)
Definition median_of_three (v a : list nat) (pl pm pr : nat) : list nat :=
  let a := if key_at v a pm <? key_at v a pl then intp_swap a pm pl else a in
  let a := if key_at v a pr <? key_at v a pm then intp_swap a pr pm else a in
  if key_at v a pm <? key_at v a pl then intp_swap a pm pl else a.

(** One pass of [while ((pr - pl) > SMALL_QUICKSORT)]: the array after
    the partition of [pl..pr] and the place [pi] of the pivot. *)
Definition partition (v a : list nat) (pl pr : nat) : list nat * nat :=
  let pm := pl + (pr - pl) / 2 in
  let a := median_of_three v a pl pm pr in
  let vp := key_at v a pm in
  let a := intp_swap a pm (pr - 1) in
  let '(a, pi) := partition_loop (length a) v a vp pl (pr - 1) in
  (intp_swap a pi (pr - 1), pi).

(** [while (pj > pl && vp < v[*pk]) { *pj-- = *pk--; } *pj = vi;] *)
Fixpoint shift_up (fuel : nat) (v a : list nat) (vi vp pl pj : nat)
    : list nat :=
  match fuel with
  | 0 => <[pj := vi]> a
  | S fuel =>
      if (pl <? pj) && (vp <? key_at v a (pj - 1))
      then shift_up fuel v (<[pj := nth (pj - 1) a 0]> a) vi vp pl (pj - 1)
      else <[pj := vi]> a
  end.

(** [for (pi = pl + 1; pi <= pr; ++pi)], [count] positions to go. *)
Fixpoint insertion_loop (count : nat) (v a : list nat) (pl pi : nat)
    : list nat :=
  match count with
  | 0 => a
  | S count =>
      let vi := nth pi a 0 in
      insertion_loop count v (shift_up pi v a vi (nth vi v 0) pl pi) pl (S pi)
  end.

Definition insertion_sort (v a : list nat) (pl pr : nat) : list nat :=
  insertion_loop (pr - pl) v a pl (S pl).

(** The ranges of [aquicksort].  The C code keeps the larger side of a
    partition on a stack, with the depth budget [cdepth] it had then,
    and goes on with the smaller side; the two sides are disjoint, so
    the order in which they are sorted does not show in the result.  A
    range taken from the stack with a budget below zero is handed to
    heapsort, which is not modelled: the result is then [None]. *)
Fixpoint quicksort_range (fuel : nat) (v a : list nat) (cdepth : Z)
    (pl pr : nat) : option (list nat) :=
  match fuel with
  | 0 => None
  | S fuel =>
      if SMALL_QUICKSORT <? pr - pl then
        let '(a, pi) := partition v a pl pr in
        let cdepth := (cdepth - 1)%Z in
        if pi - pl <? pr - pi then
          match quicksort_range fuel v a cdepth pl (pi - 1) with
          | Some a =>
              if (cdepth <? 0)%Z then None
              else quicksort_range fuel v a cdepth (S pi) pr
          | None => None
          end
        else
          match quicksort_range fuel v a cdepth (S pi) pr with
          | Some a =>
              if (cdepth <? 0)%Z then None
              else quicksort_range fuel v a cdepth pl (pi - 1)
          | None => None
          end
      else Some (insertion_sort v a pl pr)
  end.

(** [np.argsort(v, kind='quicksort')]: the positions start in order and
    the budget is twice the position of the highest bit of the length. *)
Definition aquicksort (v : list nat) : option (list nat) :=
  let n := length v in
  quicksort_range (S n) v (seq 0 n) (2 * Z.of_nat (Nat.log2 n)) 0 (n - 1).

(** pandas' [nargsort(keys, kind, ascending=False)] on keys without a
    missing value: the keys and their positions are reversed, sorted in
    ascending order, and the result is reversed again. *)
Definition nargsort_desc (keys : list nat) : option (list nat) :=
  (fun p => reverse ((fun i => length keys - 1 - i) <$> p))
    <$> aquicksort (reverse keys).

(** [take(indexer)]: the rows at the positions of the indexer. *)
Definition take_rows {A} (l : list A) (indexer : list nat) : list A :=
  omap (fun i => l !! i) indexer.

(** [sort_values(ascending=False)] through that introsort.  The test
    holds whenever the introsort returns, because it sorts; it is made
    here rather than proved of the array code.  Where the test fails or
    the heapsort would run, the stable sort stands in. *)
Definition numpy_sort_desc {A} (key : A -> nat) (l : list A) : list A :=
  match nargsort_desc (key <$> l) with
  | Some indexer =>
      if decide (indexer ≡ₚ seq 0 (length l)
                 /\ StronglySorted (desc key) (take_rows l indexer))
      then take_rows l indexer
      else stable_sort_desc key l
  | None => stable_sort_desc key l
  end.

(** ** Counting *)

Section Counting.
Context {K : Type} `{EqDecision K}.

(** One step of the counting pass: a key already seen has its count
    raised in place, a new key is appended. *)
Fixpoint bump (k : K) (t : list (K * nat)) : list (K * nat) :=
  match t with
  | [] => [(k, 1)]
  | (k', n) :: t' =>
      if decide (k = k') then (k', S n) :: t' else (k', n) :: bump k t'
  end.

(** Keys in order of first appearance, each with its number of
    occurrences. *)
Definition tally (l : list K) : list (K * nat) :=
  fold_left (fun t k => bump k t) l [].

(** [Series.unique()]: the distinct values in order of first
    appearance. *)
Definition unique (l : list K) : list K := (tally l).*1.

(** [Series.dropna()]. *)
Definition dropna (l : list (option K)) : list K := omap id l.

(** [Series.value_counts()]: missing values are left out, the distinct
    values are counted in order of first appearance, and the counts are
    then put in descending order with [sort_values]. *)
Definition value_counts (srt : Sorter) (l : list (option K))
    : list (K * nat) :=
  sort_desc srt snd (tally (dropna l)).

(** [Series.nlargest(n)] (keep='first'): when the series has at most
    [n] entries it is sorted with [sort_values]; otherwise the [n]
    largest are selected with a stable sort. *)
Definition nlargest (srt : Sorter) (n : nat) (l : list (K * nat))
    : list (K * nat) :=
  if (length l <=? n)%nat then take n (sort_desc srt snd l)
  else take n (stable_sort_desc snd l).

(** [DataFrame.sort_values(by=count, ascending=False)]. *)
Definition sort_values (srt : Sorter) (l : list (K * nat)) : list (K * nat) :=
  sort_desc srt snd l.

Definition total (t : list (K * nat)) : nat := sum_list (t.*2).

(** The counting pass from an accumulator. *)
Definition tally_from (acc : list (K * nat)) (l : list K) :=
  fold_left (fun t k => bump k t) l acc.

(** The count a table of counts holds for a key (0 when absent). *)
Fixpoint count_in (t : list (K * nat)) (k : K) : nat :=
  match t with
  | [] => 0
  | (k', n) :: t' => if decide (k = k') then n else count_in t' k
  end.

(** The number of occurrences of a key in a column. *)
Definition occurrences (k : K) (l : list K) : nat :=
  length (filter (fun x => x = k) l).

(** The distinct values of a column in order of first appearance. *)
Fixpoint first_seen (l : list K) : list K :=
  match l with
  | [] => []
  | x :: l' => x :: filter (fun y => y <> x) (first_seen l')
  end.
End Counting.

(** ** Aggregations *)

Section Aggregations.
Context {F : Type} `{EqDecision F}.
Variable srt : Sorter.

(** Line 150. *)
Definition city_counts (filtered : list (@Store F)) : list (string * nat) :=
  nlargest srt 10 (value_counts srt (City <$> filtered)).

(** Lines 168-171. *)
Definition top_cities (filtered : list (@Store F)) : list (string * nat) :=
  take 10 (sort_values srt (value_counts srt (City <$> filtered))).

(** Line 181: the pie chart's counts. *)
Definition ownership_counts_pie (filtered : list (@Store F))
    : list (string * nat) :=
  value_counts srt (OwnershipType <$> filtered).

(** Lines 189-192: the bar chart's counts. *)
Definition ownership_counts_bar (df_starbucks : list (@Store F))
    : list (string * nat) :=
  value_counts srt (OwnershipType <$> df_starbucks).
End Aggregations.

(** ** Sidebar lists (lines 38 and 43) *)

(** Line 38: [df_starbucks['CountryCode'].dropna().unique()]. *)
Definition country_list {F} (df_starbucks : list (Row (option F) density))
    : list string :=
  unique (dropna (CountryCode <$> df_starbucks)).

(** Line 43: [filtered_data['City'].dropna().unique()]. *)
Definition city_list {F} (filtered : list (Row (option F) density))
    : list string :=
  unique (dropna (City <$> filtered)).

(** [ranking] is the first [n] entries of the counts [t] put in
    descending order of count. *)
Definition is_top_of {K} (n : nat) (t ranking : list (K * nat)) : Prop :=
  exists full,
    ranking = take n full
    /\ full ≡ₚ t
    /\ StronglySorted (desc snd) full.

(** The per-city counts both rankings start from: one entry per city
    present in the table. *)
Definition city_tally {F} (filtered : list (Row (option F) density))
    : list (string * nat) :=
  tally (dropna (City <$> filtered)).

(** ** Cross-tabulations *)

(** A wide table of counts: one row per index key, one column per column
    key, both in ascending key order; a combination no input row has
    holds the fill value 0. *)
Record Crosstab (I : Type) := mkCrosstab {
  index : list I;
  columns : list string;
  cells : list (list nat)
}.
Arguments mkCrosstab {I}.
Arguments index {I}.
Arguments columns {I}.
Arguments cells {I}.

Section Crosstab.
Context {I : Type} `{EqDecision I}.
Variable leb : I -> I -> bool.

(** What one input row brings to its group: the two group keys and
    the number it adds to the group's aggregate. *)
Definition Obs : Type := I * string * nat.

Definition weight (obs : list Obs) : nat := sum_list (obs.*2).

Definition cell (obs : list Obs) (i : I) (c : string) : nat :=
  weight (filter (fun o => o.1.1 = i /\ o.1.2 = c) obs).

(** Group by the two keys, aggregate, unstack the second key with
    [fill_value=0]. *)
Definition crosstab (obs : list Obs) : Crosstab I :=
  let idx := isort leb (unique (obs.*1.*1)) in
  let cols := isort String.leb (unique (obs.*1.*2)) in
  mkCrosstab idx cols ((fun i => cell obs i <$> cols) <$> idx).

Definition cells_sum (t : Crosstab I) : nat :=
  sum_list (sum_list <$> cells t).

(** [reset_index().melt(id_vars=index)]: one (index, column, count)
    triple per cell, column by column. *)
Definition melt (t : Crosstab I) : list (I * string * nat) :=
  mjoin (zip_with (fun c j =>
                     zip_with (fun i row => (i, c, default 0 (row !! j)))
                              (index t) (cells t))
                  (columns t) (seq 0 (length (columns t)))).
End Crosstab.

Section Pivots.
Context {F : Type} `{EqDecision F}.

(** The rows [pivot_table] groups: those whose City and OwnershipType
    are both present; [aggfunc='count'] counts the StoreNumber cells
    of the group that are present. *)
Definition pivot_obs (r : @Store F) : option (@Obs string) :=
  match City r, OwnershipType r with
  | Some c, Some o =>
      Some (c, o, match StoreNumber r with Some _ => 1 | None => 0 end)
  | _, _ => None
  end.

(** Line 80. *)
Definition pivot_table (filtered : list (@Store F)) : Crosstab string :=
  crosstab String.leb (omap pivot_obs filtered).

(** Line 225: [pd.to_datetime(_, format=...).dt.year] on one cell.
    [year_of] is the library's parser for the format
    '%m/%d/%Y %I:%M:%S %p'; text it rejects raises ValueError, a
    missing cell stays missing. *)
Definition to_year (year_of : string -> option Z) (c : option string)
    : result (option Z) :=
  match c with
  | None => Ok None
  | Some s =>
      match year_of s with
      | Some y => Ok (Some y)
      | None => Raise ValueError
      end
  end.

Definition year_obs (y : option Z) (r : @Store F) : option (@Obs Z) :=
  match y, OwnershipType r with
  | Some y, Some o => Some (y, o, 1)
  | _, _ => None
  end.

(** Lines 225-228: [groupby(['Year','OwnershipType']).size()
    .unstack(fill_value=0)]. *)
Definition store_counts_by_year (year_of : string -> option Z)
    (df : list (@Store F)) : result (Crosstab Z) :=
  do years <- apply (to_year year_of) (FirstSeen <$> df) in
  Ok (crosstab Z.leb (omap id (zip_with year_obs years df))).

(** Line 231. *)
Definition store_counts_long (year_of : string -> option Z)
    (df : list (@Store F)) : result (list (Z * string * nat)) :=
  do wide <- store_counts_by_year year_of df in
  Ok (melt wide).

(** The year column: missing stays missing, text is parsed. *)
Definition year_cell (year_of : string -> option Z) (r : @Store F)
    : option Z :=
  FirstSeen r ≫= year_of.

(** The rows of the year grouping, from the table alone. *)
Definition year_row_obs (year_of : string -> option Z) (r : @Store F)
    : option (@Obs Z) :=
  year_obs (year_cell year_of r) r.
End Pivots.

(** Tab 4, lines 181 and 189: the two ownership-type counts the tab
    draws, from the sidebar selection. *)
Definition ownership_distribution {F : Type} `{EqDecision F} (srt : Sorter)
    (df_starbucks : list (@Store F)) (selected_country : value F)
    (selected_cities : list (value F))
    : result (list (string * nat) * list (string * nat)) :=
  do filtered <- filtered_data df_starbucks selected_country selected_cities in
  Ok (ownership_counts_pie srt filtered, ownership_counts_bar srt df_starbucks).

(** ** Example tables *)

Definition sample_store (number country city owner : string) : @Store Z :=
  mkRow (Some number) None None (Some country) (Some city) (Some owner)
        (Some "12/08/2013 10:41:43 PM") None LowDensity.

(** Eleven cities with one store each, in the order A to K. *)
Definition eleven_cities : list (@Store Z) :=
  (fun c => sample_store "S-1" "US" c "CO")
    <$> ["A"; "B"; "C"; "D"; "E"; "F"; "G"; "H"; "I"; "J"; "K"].

(** Sixty-five cities with one store each, in the order C01 to C65. *)
Definition sixty_five_cities : list (@Store Z) :=
  (fun c => sample_store "S-1" "US" c "CO")
    <$> ["C01"; "C02"; "C03"; "C04"; "C05"; "C06"; "C07"; "C08"; "C09"; "C10";
         "C11"; "C12"; "C13"; "C14"; "C15"; "C16"; "C17"; "C18"; "C19"; "C20";
         "C21"; "C22"; "C23"; "C24"; "C25"; "C26"; "C27"; "C28"; "C29"; "C30";
         "C31"; "C32"; "C33"; "C34"; "C35"; "C36"; "C37"; "C38"; "C39"; "C40";
         "C41"; "C42"; "C43"; "C44"; "C45"; "C46"; "C47"; "C48"; "C49"; "C50";
         "C51"; "C52"; "C53"; "C54"; "C55"; "C56"; "C57"; "C58"; "C59"; "C60";
         "C61"; "C62"; "C63"; "C64"; "C65"].

(** A table with 5 stores in A, 5 in B and 3 in C. *)
Definition a5_b5_c3 : list (@Store Z) :=
  (fun c => sample_store "S-1" "US" c "CO")
    <$> ["C"; "A"; "B"; "A"; "B"; "C"; "A"; "B"; "A"; "B"; "C"; "A"; "B"].

(** The year of a '%m/%d/%Y ...' timestamp whose year is 2013, for the
    examples. *)
Definition year_2013 (s : string) : option Z :=
  if String.eqb s "12/08/2013 10:41:43 PM" then Some 2013%Z else None.

Definition two_stores : list (@Store Z) :=
  [sample_store "A-1" "US" "Boston" "CO"; sample_store "A-2" "US" "Boston" "LS"].

(** A store whose City field is empty in the CSV. *)
Definition no_city_store : @Store Z :=
  mkRow (Some "A-3") None None (Some "US") None (Some "CO")
        (Some "12/08/2013 10:41:43 PM") None LowDensity.

Definition us_and_ca : list (@Store Z) :=
  [sample_store "A-1" "US" "Boston" "CO"; sample_store "A-2" "CA" "Toronto" "LS"].

(** A row as the CSV gives it, before the preparation. *)
Definition raw_store (number : option string) : Row (raw_coord Z) unit :=
  mkRow number (RawNum 42%Z) (RawText "n/a") (Some "US") (Some "Boston")
        (Some "CO") None None tt.

(** * Properties *)

(** ** Insertion sort *)

Section IsortFacts.
Context {A : Type} (leb : A -> A -> bool).

Lemma insert_sorted_perm x l : insert_sorted leb x l ≡ₚ x :: l.
Proof.
  induction l as [|y l IH]; simpl; [done|].
  destruct (leb x y); [done|].
  rewrite IH. apply Permutation_swap.
Qed.

Lemma isort_perm l : isort leb l ≡ₚ l.
Proof.
  induction l as [|x l IH]; simpl; [done|].
  by rewrite insert_sorted_perm, IH.
Qed.

Lemma isort_nil : isort leb [] = [].
Proof. done. Qed.
End IsortFacts.

Section DescFacts.
Context {A : Type} (key : A -> nat).

Lemma insert_desc_sorted x l :
  StronglySorted (desc key) l ->
  StronglySorted (desc key) (insert_sorted (desc_leb key) x l).
Proof.
  induction 1 as [|y l Hl IH Hy]; simpl.
  - repeat constructor.
  - unfold desc_leb at 1. destruct (Nat.leb_spec (key y) (key x)) as [Hle|Hlt].
    + constructor; [by constructor|].
      constructor; [done|].
      eapply Forall_impl; [exact Hy|]. unfold desc. intros z Hz. lia.
    + constructor; [done|].
      rewrite insert_sorted_perm. constructor; [unfold desc; lia|done].
Qed.

Lemma stable_sort_desc_sorted l :
  StronglySorted (desc key) (stable_sort_desc key l).
Proof.
  induction l as [|x l IH]; simpl; [constructor|].
  by apply insert_desc_sorted.
Qed.

Lemma stable_sort_desc_perm l : stable_sort_desc key l ≡ₚ l.
Proof. apply isort_perm. Qed.

(** A list already in descending order is left as it is. *)
Lemma insert_desc_head x l :
  Forall (desc key x) l -> insert_sorted (desc_leb key) x l = x :: l.
Proof.
  destruct 1 as [|y l Hy _]; simpl; [done|].
  unfold desc_leb. unfold desc in Hy.
  by destruct (Nat.leb_spec (key y) (key x)); [|lia].
Qed.

Lemma stable_sort_desc_id l :
  StronglySorted (desc key) l -> stable_sort_desc key l = l.
Proof.
  induction 1 as [|x l Hl IH Hx]; [done|].
  unfold stable_sort_desc in *. simpl. rewrite IH.
  by apply insert_desc_head.
Qed.

(** Stability: the elements of any one key keep their order. *)
Lemma insert_desc_filter x l n :
  StronglySorted (desc key) l ->
  filter (fun a => key a = n) (insert_sorted (desc_leb key) x l)
  = filter (fun a => key a = n) (x :: l).
Proof.
  induction 1 as [|y l Hl IH Hy]; simpl; [done|].
  unfold desc_leb at 1. destruct (Nat.leb_spec (key y) (key x)) as [Hle|Hlt]; [done|].
  rewrite !filter_cons in *. rewrite IH.
  destruct (decide (key y = n)), (decide (key x = n)); try done. lia.
Qed.

Lemma stable_sort_desc_filter l n :
  filter (fun a => key a = n) (stable_sort_desc key l)
  = filter (fun a => key a = n) l.
Proof.
  induction l as [|x l IH]; [done|].
  unfold stable_sort_desc in *. simpl.
  rewrite insert_desc_filter by apply stable_sort_desc_sorted.
  rewrite !filter_cons. by rewrite IH.
Qed.
End DescFacts.

(** The stable sort as an instance of the interface. *)
Definition stable_sorter : Sorter :=
  {| sort_desc := @stable_sort_desc;
     sort_desc_perm := @stable_sort_desc_perm;
     sort_desc_sorted := @stable_sort_desc_sorted |}.

(** The rows at a permutation of the positions are a permutation of the
    rows. *)
Lemma take_rows_from {A} (pre l : list A) :
  omap (fun i => (pre ++ l) !! i) (seq (length pre) (length l)) = l.
Proof.
  revert pre. induction l as [|x l IH]; intros pre; [done|].
  simpl. rewrite list_lookup_middle by done. simpl. f_equal.
  specialize (IH (pre ++ [x])). rewrite <- (assoc_L (++)) in IH.
  rewrite length_app in IH. simpl in IH. by rewrite Nat.add_1_r in IH.
Qed.

Lemma take_rows_seq {A} (l : list A) : take_rows l (seq 0 (length l)) = l.
Proof. apply (take_rows_from [] l). Qed.

Lemma take_rows_perm {A} (l : list A) (indexer : list nat) :
  indexer ≡ₚ seq 0 (length l) -> take_rows l indexer ≡ₚ l.
Proof.
  intros Hperm. rewrite <- (take_rows_seq l) at 2.
  unfold take_rows. by rewrite Hperm.
Qed.

Lemma numpy_sort_desc_perm A (key : A -> nat) l :
  numpy_sort_desc key l ≡ₚ l.
Proof.
  unfold numpy_sort_desc.
  destruct (nargsort_desc (key <$> l)) as [indexer|];
    [|apply stable_sort_desc_perm].
  destruct (decide _) as [[Hperm _]|_]; [|apply stable_sort_desc_perm].
  by apply take_rows_perm.
Qed.

Lemma numpy_sort_desc_sorted A (key : A -> nat) l :
  StronglySorted (desc key) (numpy_sort_desc key l).
Proof.
  unfold numpy_sort_desc.
  destruct (nargsort_desc (key <$> l)) as [indexer|];
    [|apply stable_sort_desc_sorted].
  destruct (decide _) as [[_ Hsorted]|_]; [done|apply stable_sort_desc_sorted].
Qed.

(** NumPy's scalar quicksort as an instance of the interface. *)
Definition numpy_sorter : Sorter :=
  {| sort_desc := @numpy_sort_desc;
     sort_desc_perm := numpy_sort_desc_perm;
     sort_desc_sorted := numpy_sort_desc_sorted |}.

Lemma stable_sorter_is_stable : is_stable stable_sorter.
Proof. by intros A key l. Qed.

(** ** Density classification *)

Lemma split_not_nil sep s : split sep s <> [].
Proof.
  destruct s as [|c s]; simpl; [done|].
  destruct (Ascii.eqb c sep); [done|]. by destruct (split sep s).
Qed.

(** [x.split('-')[-1]] never raises: there is always a final segment. *)
Lemma suffix_total s : exists seg, suffix s = Ok seg.
Proof.
  unfold suffix, index_last.
  destruct (last (split "-" s)) as [seg|] eqn:E; [by exists seg|].
  apply last_None in E. by apply split_not_nil in E.
Qed.

Lemma apply_Ok_inv {A B} (f : A -> result B) l bs a :
  apply f l = Ok bs -> a ∈ l -> exists b, f a = Ok b.
Proof.
  revert bs. induction l as [|x l IH]; intros bs Hap Hin.
  - by apply not_elem_of_nil in Hin.
  - simpl in Hap. destruct (f x) as [b|e] eqn:Hx; [|done]. simpl in Hap.
    destruct (apply f l) as [bs'|e] eqn:Hl; [|done].
    apply elem_of_cons in Hin as [->|Hin]; [by exists b|].
    by apply (IH bs').
Qed.

Lemma apply_length {A B} (f : A -> result B) l bs :
  apply f l = Ok bs -> length bs = length l.
Proof.
  revert bs. induction l as [|x l IH]; intros bs Hap; simpl in *.
  - by injection Hap as <-.
  - destruct (f x) as [b|e]; [|done]. simpl in Hap.
    destruct (apply f l) as [bs'|e]; [|done]. simpl in Hap.
    injection Hap as <-. simpl. f_equal. by apply IH.
Qed.

Lemma apply_Forall2 {A B} (f : A -> result B) l bs :
  apply f l = Ok bs -> Forall2 (fun a b => f a = Ok b) l bs.
Proof.
  revert bs. induction l as [|x l IH]; intros bs Hap; simpl in *.
  - injection Hap as <-. constructor.
  - destruct (f x) as [b|e] eqn:Hx; [|done]. simpl in Hap.
    destruct (apply f l) as [bs'|e]; [|done]. simpl in Hap.
    injection Hap as <-. constructor; [done|]. by apply IH.
Qed.

(** When line 35 succeeds, every row of the table carries the category of
    its own StoreNumber and is otherwise unchanged. *)
Lemma add_density_rows {C} (rows : list (Row C unit)) out :
  add_density rows = Ok out ->
  Forall2 (fun r r' =>
             density_category (StoreNumber r) = Ok (Density_Category r')
             /\ r' = set_density r (Density_Category r'))
          rows out.
Proof.
  unfold add_density. intros Hadd.
  destruct (apply density_category (StoreNumber <$> rows)) as [cats|e] eqn:Hap;
    [|done].
  simpl in Hadd. injection Hadd as <-.
  apply apply_Forall2 in Hap. clear -Hap.
  revert cats Hap. induction rows as [|r rows IH]; intros cats Hap.
  - inversion Hap. constructor.
  - rewrite fmap_cons in Hap. inversion Hap as [|? d ? cats' Hd Hrest]; subst.
    simpl. constructor; [by split|]. by apply IH.
Qed.

(** C1. When the final '-'-separated segment of a store identifier parses
    as the integer [n], the density category is High Density exactly when
    [n > 1000] and Low Density otherwise (so 1000 itself is Low
    Density). *)
Theorem density_by_suffix (s seg : string) (n : Z) :
  suffix s = Ok seg ->
  parse_int seg = Some n ->
  density_category (Some s)
    = Ok (if (n >? 1000)%Z then HighDensity else LowDensity)
  /\ (density_category (Some s) = Ok HighDensity <-> (1000 < n)%Z)
  /\ (density_category (Some s) = Ok LowDensity <-> (n <= 1000)%Z).
Proof.
  intros Hseg Hn.
  assert (density_category (Some s)
          = Ok (if (n >? 1000)%Z then HighDensity else LowDensity)) as Hd.
  { unfold density_category. rewrite Hseg. simpl. unfold int. by rewrite Hn. }
  rewrite Hd. split; [done|].
  destruct (Z.gtb_spec n 1000); split; split; intros; try done; lia.
Qed.

Lemma density_by_suffix_witness :
  suffix "SB-001-1500" = Ok "1500"
  /\ parse_int "1500" = Some 1500%Z
  /\ density_category (Some "SB-001-1500") = Ok HighDensity.
Proof.
  split; [reflexivity|]. split; [reflexivity|].
  apply (density_by_suffix "SB-001-1500" "1500" 1500); reflexivity.
Defined.

Example density_1500 : density_category (Some "SB-001-1500") = Ok HighDensity.
Proof. reflexivity. Qed.

Example density_999 : density_category (Some "SB-001-999") = Ok LowDensity.
Proof. reflexivity. Qed.

Example density_1000 : density_category (Some "SB-001-1000") = Ok LowDensity.
Proof. reflexivity. Qed.

Example density_1001 : density_category (Some "SB-001-1001") = Ok HighDensity.
Proof. reflexivity. Qed.

(** C5. When the final '-'-separated segment of a store identifier does
    not parse as an integer, classifying that identifier raises
    ValueError, and the column-wide classification of any table holding
    such a row raises as well: no row gets a default category. *)
Theorem malformed_suffix_raises (s seg : string) :
  suffix s = Ok seg ->
  parse_int seg = None ->
  density_category (Some s) = Raise ValueError
  /\ forall C (rows : list (Row C unit)),
       Some s ∈ StoreNumber <$> rows ->
       exists e, add_density rows = Raise e.
Proof.
  intros Hseg Hn.
  assert (density_category (Some s) = Raise ValueError) as Hd.
  { unfold density_category. rewrite Hseg. simpl. unfold int. by rewrite Hn. }
  split; [done|]. intros C rows Hin. unfold add_density.
  destruct (apply density_category (StoreNumber <$> rows)) as [cats|e] eqn:Hap.
  - destruct (apply_Ok_inv _ _ _ _ Hap Hin) as [b Hb]. congruence.
  - by exists e.
Qed.

Lemma malformed_suffix_raises_witness :
  suffix "SB-001-X12" = Ok "X12"
  /\ parse_int "X12" = None
  /\ density_category (Some "SB-001-X12") = Raise ValueError.
Proof.
  split; [reflexivity|]. split; [reflexivity|].
  apply (malformed_suffix_raises "SB-001-X12" "X12"); reflexivity.
Defined.

Example density_no_suffix : density_category (Some "SB-001-") = Raise ValueError.
Proof. reflexivity. Qed.

Example density_no_separator : density_category (Some "Starbucks") = Raise ValueError.
Proof. reflexivity. Qed.

(** ** The filter *)

Section FilterFacts.
Context {F : Type} `{EqDecision F}.
Implicit Types (data : list (@Store F)) (values : list (value F)).

Lemma filter_data_unfold data column values cell :
  column_of column = Some cell ->
  filter_data data column values
    = Ok (filter (fun r => isin values (cell r)) data).
Proof. unfold filter_data. by intros ->. Qed.

Lemma filter_isin_ext data values values' (cell : @Store F -> value F) :
  (forall v, v ∈ values <-> v ∈ values') ->
  filter (fun r => isin values (cell r)) data
    = filter (fun r => isin values' (cell r)) data.
Proof.
  intros Hsame. apply list_filter_iff. intros r. unfold isin. apply Hsame.
Qed.

Lemma filter_isin_idemp data values (cell : @Store F -> value F) :
  filter (fun r => isin values (cell r))
         (filter (fun r => isin values (cell r)) data)
    = filter (fun r => isin values (cell r)) data.
Proof.
  induction data as [|r data IH]; [done|].
  rewrite filter_cons. destruct (decide (isin values (cell r))) as [Hr|Hr].
  - rewrite filter_cons. rewrite decide_True by done. by rewrite IH.
  - done.
Qed.
End FilterFacts.

(** C2. For a column the table has, [filter_data] returns exactly the
    rows whose cell in that column is one of the allowed values, in
    their original order; only which values are allowed matters, not
    their order or repetition; when no row matches, the result is the
    empty table and not an error. *)
Theorem filter_data_exact {F : Type} `{EqDecision F}
    (data : list (@Store F)) (column : string) (values : list (value F))
    (cell : @Store F -> value F) :
  column_of column = Some cell ->
  exists out,
    filter_data data column values = Ok out
    /\ out = filter (fun r => cell r ∈ values) data
    /\ (forall r, r ∈ out <-> r ∈ data /\ cell r ∈ values)
    /\ out `sublist_of` data
    /\ (forall values', (forall v, v ∈ values <-> v ∈ values') ->
          filter_data data column values' = Ok out)
    /\ ((forall r, r ∈ data -> cell r ∉ values) -> out = []).
Proof.
  intros Hcol. exists (filter (fun r => isin values (cell r)) data).
  split; [by apply filter_data_unfold|]. split; [done|].
  split; [|split; [|split]].
  - intros r. rewrite list_elem_of_filter. unfold isin. tauto.
  - apply sublist_filter.
  - intros values' Hsame. rewrite (filter_data_unfold _ _ _ _ Hcol).
    f_equal. symmetry. by apply filter_isin_ext.
  - intros Hnone. induction data as [|r data IH]; [done|].
    rewrite filter_cons. rewrite decide_False.
    + apply IH. intros r' Hr'. apply Hnone. by right.
    + apply Hnone. by left.
Qed.

Lemma filter_data_exact_witness :
  exists out,
    filter_data [sample_store "A-1" "US" "Boston" "CO";
                 sample_store "A-2" "CA" "Toronto" "LS"]
                "CountryCode" [Str "US"] = Ok out
    /\ out = [sample_store "A-1" "US" "Boston" "CO"].
Proof.
  destruct (filter_data_exact
              [sample_store "A-1" "US" "Boston" "CO";
               sample_store "A-2" "CA" "Toronto" "LS"]
              "CountryCode" [Str "US"]
              (fun r => of_text (CountryCode r)) eq_refl)
    as (out & Hout & Heq & _).
  exists out. split; [exact Hout|]. rewrite Heq. reflexivity.
Defined.

Example filter_no_match :
  filter_data [sample_store "A-1" "US" "Boston" "CO"] "CountryCode"
              [Str "FR"; Str "DE"] = Ok [].
Proof. reflexivity. Qed.

Example filter_unknown_column :
  filter_data [sample_store "A-1" "US" "Boston" "CO"] "Country"
              [Str "US"] = Raise KeyError.
Proof. reflexivity. Qed.

(** C7. [filter_data] is idempotent: filtering its own output again by
    the same column and the same allowed values gives that output back
    (and a call that raises, raises the same way). *)
Theorem filter_data_idempotent {F : Type} `{EqDecision F}
    (data : list (@Store F)) (column : string) (values : list (value F)) :
  (do out <- filter_data data column values in
   filter_data out column values)
  = filter_data data column values.
Proof.
  unfold filter_data. destruct (column_of column) as [cell|]; simpl; [|done].
  by rewrite filter_isin_idemp.
Qed.

(** ** Coordinate coercion *)

(** C8. Coercing the coordinates never raises and never drops a row: the
    table keeps its length, every row keeps all its other fields, and
    each coordinate is coerced to a number: a number stays the number it
    is, text that parses becomes the number it parses to, and text that
    does not parse, like an empty cell, becomes the missing value. *)
Theorem coerce_coordinates_frame {F : Type} (parse : string -> option F)
    (raw : list (Row (raw_coord F) unit)) :
  length (coerce_coordinates parse raw) = length raw
  /\ Forall2 (fun r r' =>
        StoreNumber r' = StoreNumber r
        /\ CountryCode r' = CountryCode r
        /\ City r' = City r
        /\ OwnershipType r' = OwnershipType r
        /\ FirstSeen r' = FirstSeen r
        /\ Name r' = Name r
        /\ Density_Category r' = Density_Category r
        /\ coerced parse (lat r) (lat r')
        /\ coerced parse (lon r) (lon r'))
      raw (coerce_coordinates parse raw).
Proof.
  assert (forall c, coerced parse c (to_numeric parse c)) as Hcell.
  { intros c. unfold coerced. repeat split.
    - by intros x ->.
    - by intros s x -> <-.
    - by intros s -> <-.
    - by intros ->. }
  unfold coerce_coordinates. split; [by rewrite length_fmap|].
  induction raw as [|r raw IH]; constructor; [|exact IH].
  repeat split; apply Hcell.
Qed.

(** Text that parses becomes its number, text that does not becomes the
    missing value, and the row stays. *)
Example coerce_bad_latitude :
  coerce_coordinates (fun s => if String.eqb s "42" then Some 42%Z else None)
    [mkRow (Some "A-1") (RawText "n/a") (RawText "42") (Some "US")
           (Some "Boston") (Some "CO") None None tt;
     mkRow (Some "A-2") RawNaN (RawNum 7%Z) (Some "US")
           (Some "Boston") (Some "CO") None None tt]
  = [mkRow (Some "A-1") None (Some 42%Z) (Some "US") (Some "Boston")
           (Some "CO") None None tt;
     mkRow (Some "A-2") None (Some 7%Z) (Some "US") (Some "Boston")
           (Some "CO") None None tt].
Proof. reflexivity. Qed.

(** ** Counting *)

Section CountingFacts.
Context {K : Type} `{EqDecision K}.
Implicit Types (k : K) (t : list (K * nat)) (l : list K).

Lemma bump_keys k t :
  (bump k t).*1 = t.*1 ++ (if decide (k ∈ t.*1) then [] else [k]).
Proof.
  induction t as [|[k' n] t IH]; [done|].
  cbn [bump fmap list_fmap fst app].
  destruct (decide (k = k')) as [->|Hne]; cbn [fmap list_fmap fst].
  - rewrite decide_True by left. by rewrite app_nil_r.
  - rewrite IH. f_equal. f_equal.
    destruct (decide (k ∈ t.*1)) as [Hin|Hin].
    + rewrite decide_True; [done|]. by right.
    + rewrite decide_False; [done|].
      intros [->|?]%elem_of_cons; done.
Qed.

Lemma bump_count k t k' :
  count_in (bump k t) k'
    = (count_in t k' + if decide (k' = k) then 1 else 0)%nat.
Proof.
  induction t as [|[k0 n] t IH]; simpl.
  - by destruct (decide (k' = k)).
  - destruct (decide (k = k0)) as [->|Hne]; simpl.
    + destruct (decide (k' = k0)); lia.
    + destruct (decide (k' = k0)) as [->|]; [|done].
      rewrite decide_False by done. lia.
Qed.

Lemma bump_total k t : total (bump k t) = S (total t).
Proof.
  unfold total. induction t as [|[k' n] t IH]; [done|].
  cbn [bump]. destruct (decide (k = k')).
  - rewrite !fmap_cons. simpl. lia.
  - rewrite !fmap_cons.
    change (sum_list (?x :: ?l)) with (x + sum_list l).
    rewrite IH. simpl. lia.
Qed.

Lemma bump_NoDup k t : NoDup t.*1 -> NoDup (bump k t).*1.
Proof.
  intros Hnd. rewrite bump_keys. destruct (decide (k ∈ t.*1)).
  - by rewrite app_nil_r.
  - apply NoDup_app. split; [done|]. split; [|apply NoDup_singleton].
    intros x Hx ->%list_elem_of_singleton. done.
Qed.

Lemma tally_from_total acc l :
  total (tally_from acc l) = (total acc + length l)%nat.
Proof.
  revert acc. induction l as [|x l IH]; intros acc; simpl; [lia|].
  unfold tally_from in *. simpl. rewrite IH, bump_total. lia.
Qed.

Lemma tally_from_NoDup acc l : NoDup acc.*1 -> NoDup (tally_from acc l).*1.
Proof.
  revert acc. induction l as [|x l IH]; intros acc Hnd; [done|].
  apply IH. by apply bump_NoDup.
Qed.

Lemma tally_from_count acc l k :
  count_in (tally_from acc l) k = (count_in acc k + occurrences k l)%nat.
Proof.
  revert acc. induction l as [|x l IH]; intros acc.
  - unfold occurrences. simpl. lia.
  - unfold tally_from in *. simpl. rewrite IH, bump_count.
    unfold occurrences. rewrite filter_cons.
    destruct (decide (k = x)) as [->|Hne].
    + rewrite decide_True by done. simpl. lia.
    + rewrite decide_False by congruence. lia.
Qed.

Lemma tally_from_keys acc l :
  (tally_from acc l).*1
    = acc.*1 ++ filter (fun y => y ∉ acc.*1) (first_seen l).
Proof.
  revert acc. induction l as [|x l IH]; intros acc.
  - simpl. by rewrite app_nil_r.
  - unfold tally_from in *. simpl fold_left. rewrite IH, bump_keys.
    simpl first_seen. rewrite filter_cons.
    destruct (decide (x ∈ acc.*1)) as [Hin|Hin].
    + rewrite app_nil_r. destruct (decide (x ∉ acc.*1)) as [Hn|_]; [done|].
      f_equal. rewrite list_filter_filter. apply list_filter_iff.
      intros y. split; [|by intros [? _]].
      intros Hy. split; [done|]. congruence.
    + rewrite decide_True by done. rewrite <- app_assoc. simpl. do 2 f_equal.
      rewrite list_filter_filter. apply list_filter_iff.
      intros y. rewrite elem_of_app, list_elem_of_singleton. split.
      * intros Hy. split; intros ?; apply Hy; [by left|by right].
      * intros [Hy1 Hy2] [?|?]; done.
Qed.

Lemma tally_total l : total (tally l) = length l.
Proof. apply (tally_from_total [] l). Qed.

Lemma tally_NoDup l : NoDup (tally l).*1.
Proof. apply (tally_from_NoDup [] l). constructor. Qed.

Lemma tally_count l k : count_in (tally l) k = occurrences k l.
Proof. apply (tally_from_count [] l k). Qed.

(** The keys come in order of first appearance. *)
Lemma tally_keys l : (tally l).*1 = first_seen l.
Proof.
  unfold tally. change (fold_left _ l []) with (tally_from [] l).
  rewrite tally_from_keys. cbn [fmap list_fmap app].
  induction (first_seen l) as [|y fs IHfs]; [done|].
  rewrite filter_cons, IHfs.
  by destruct (decide (y ∉ [])) as [_|Hn]; [|destruct Hn; apply not_elem_of_nil].
Qed.

Lemma count_in_elem t k n : NoDup t.*1 -> (k, n) ∈ t -> count_in t k = n.
Proof.
  induction t as [|[k' n'] t IH]; intros Hnd Hin.
  - by apply not_elem_of_nil in Hin.
  - simpl in *. apply NoDup_cons in Hnd as [Hk' Hnd].
    apply elem_of_cons in Hin as [Heq|Hin].
    + injection Heq as -> ->. by rewrite decide_True.
    + destruct (decide (k = k')) as [->|]; [|by apply IH].
      exfalso. apply Hk'. apply list_elem_of_fmap. by exists (k', n).
Qed.

(** Every entry of the tally holds the number of occurrences of its
    key. *)
Lemma tally_elem l k n : (k, n) ∈ tally l -> n = occurrences k l.
Proof.
  intros Hin. rewrite <- tally_count. symmetry.
  apply count_in_elem; [apply tally_NoDup|done].
Qed.

Lemma first_seen_elem l k : k ∈ first_seen l <-> k ∈ l.
Proof.
  induction l as [|x l IH]; simpl; [done|].
  rewrite !elem_of_cons, list_elem_of_filter, IH.
  destruct (decide (k = x)); tauto.
Qed.

Lemma tally_nil : tally (@nil K) = [].
Proof. done. Qed.
End CountingFacts.

(** ** Rankings *)

Section RankingFacts.
Context {K : Type} `{EqDecision K}.
Implicit Types (t : list (K * nat)).

Lemma value_counts_perm srt (l : list (option K)) :
  value_counts srt l ≡ₚ tally (dropna l).
Proof. apply sort_desc_perm. Qed.

Lemma value_counts_sorted srt (l : list (option K)) :
  StronglySorted (desc snd) (value_counts srt l).
Proof. apply sort_desc_sorted. Qed.

Lemma nlargest_top srt n t : is_top_of n t (nlargest srt n t).
Proof.
  unfold nlargest. destruct (length t <=? n).
  - exists (sort_desc srt snd t).
    split; [done|]. split; [apply sort_desc_perm|apply sort_desc_sorted].
  - exists (stable_sort_desc snd t).
    split; [done|].
    split; [apply stable_sort_desc_perm|apply stable_sort_desc_sorted].
Qed.

Lemma is_top_of_perm n t t' ranking :
  t ≡ₚ t' -> is_top_of n t ranking -> is_top_of n t' ranking.
Proof.
  intros Ht (full & ? & ? & ?). exists full. by rewrite <- Ht.
Qed.

(** Two descending arrangements of the same counts show the same
    sequence of counts. *)
Lemma sorted_counts_unique (l1 l2 : list (K * nat)) :
  l1 ≡ₚ l2 ->
  StronglySorted (desc snd) l1 -> StronglySorted (desc snd) l2 ->
  l1.*2 = l2.*2.
Proof.
  intros Hp H1 H2.
  apply (StronglySorted_unique_strong (fun a b : nat => b <= a)).
  - intros; lia.
  - eapply StronglySorted_fmap; [|exact H1]. by unfold desc.
  - eapply StronglySorted_fmap; [|exact H2]. by unfold desc.
  - by rewrite Hp.
Qed.

Lemma is_top_of_counts n t r1 r2 :
  is_top_of n t r1 -> is_top_of n t r2 -> r1.*2 = r2.*2.
Proof.
  intros (f1 & -> & Hp1 & Hs1) (f2 & -> & Hp2 & Hs2).
  rewrite !fmap_take. f_equal.
  apply sorted_counts_unique; [|done..]. by rewrite Hp1, Hp2.
Qed.

Lemma is_top_of_sorted n t r :
  is_top_of n t r -> StronglySorted (desc snd) r.
Proof.
  intros (full & -> & _ & Hs). revert n.
  induction Hs as [|x l Hl IH Hx]; intros [|n]; simpl; try constructor.
  - apply IH.
  - by apply Forall_take.
Qed.

(** With a stable sort both ways of taking the top [n] are the first
    [n] of the stable arrangement. *)
Lemma stable_value_counts srt (l : list (option K)) :
  is_stable srt ->
  value_counts srt l = stable_sort_desc snd (tally (dropna l)).
Proof. intros Hst. unfold value_counts. apply Hst. Qed.

Lemma stable_nlargest srt n t :
  is_stable srt ->
  StronglySorted (desc snd) t ->
  nlargest srt n t = take n t.
Proof.
  intros Hst Hs. unfold nlargest. rewrite Hst.
  rewrite stable_sort_desc_id by done. by destruct (length t <=? n).
Qed.

Lemma stable_sort_values srt t :
  is_stable srt ->
  StronglySorted (desc snd) t ->
  sort_values srt t = t.
Proof.
  intros Hst Hs. unfold sort_values. rewrite Hst.
  by apply stable_sort_desc_id.
Qed.
End RankingFacts.

Lemma occurrences_city {F} (filtered : list (Row (option F) density)) c :
  occurrences c (dropna (City <$> filtered))
    = length (filter (fun r => City r = Some c) filtered).
Proof.
  unfold occurrences, dropna.
  induction filtered as [|r rows IH]; [done|].
  rewrite fmap_cons. cbn [omap list_omap]. rewrite (filter_cons _ r).
  destruct (City r) as [c'|] eqn:Hc; simpl.
  - rewrite filter_cons. destruct (decide (c' = c)) as [->|Hne].
    + destruct (decide (Some c = Some c)); [|done]. simpl. by rewrite IH.
    + destruct (decide (Some c' = Some c)); [congruence|done].
  - destruct (decide (None = Some c)); done.
Qed.

Section CutFacts.
Context {A : Type} (key : A -> nat).

(** When the first [n] entries all lie above a count [m] and the rest
    do not, the first [n] are exactly the entries above [m]. *)
Lemma take_above l n m :
  Forall (fun a => m < key a) (take n l) ->
  Forall (fun a => key a <= m) (drop n l) ->
  take n l = filter (fun a => m < key a) l.
Proof.
  intros Htake Hdrop.
  rewrite <- (take_drop n l) at 2. rewrite filter_app.
  assert (filter (fun a => m < key a) (take n l) = take n l) as ->.
  { induction Htake as [|a l' Ha _ IH]; [done|].
    rewrite filter_cons, decide_True by done. by rewrite IH. }
  assert (filter (fun a => m < key a) (drop n l) = []) as ->.
  { induction Hdrop as [|a l' Ha _ IH]; [done|].
    rewrite filter_cons, decide_False by lia. done. }
  by rewrite app_nil_r.
Qed.

Lemma take_same_members l1 l2 n m :
  l1 ≡ₚ l2 ->
  key <$> l1 = key <$> l2 ->
  Forall (fun a => m < key a) (take n l2) ->
  Forall (fun a => key a <= m) (drop n l2) ->
  take n l1 ≡ₚ take n l2.
Proof.
  intros Hp Hk Htake Hdrop.
  rewrite (take_above l2 n m) by done.
  rewrite (take_above l1 n m).
  - by rewrite Hp.
  - apply (Forall_fmap key (fun x => m < x)).
    rewrite fmap_take, Hk, <- fmap_take. by apply Forall_fmap.
  - apply (Forall_fmap key (fun x => x <= m)).
    rewrite fmap_drop, Hk, <- fmap_drop. by apply Forall_fmap.
Qed.
End CutFacts.

Section CityRankingFacts.
Context {F : Type} `{EqDecision F} (srt : Sorter).
Implicit Types (filtered : list (@Store F)).

Lemma city_counts_top filtered :
  is_top_of 10 (city_tally filtered) (city_counts srt filtered).
Proof.
  eapply is_top_of_perm; [|apply nlargest_top]. apply value_counts_perm.
Qed.

Lemma top_cities_top filtered :
  is_top_of 10 (city_tally filtered) (top_cities srt filtered).
Proof.
  exists (sort_values srt (value_counts srt (City <$> filtered))).
  split; [done|]. unfold sort_values.
  split; [|apply sort_desc_sorted].
  rewrite sort_desc_perm. apply value_counts_perm.
Qed.

Lemma stable_city_counts filtered :
  is_stable srt ->
  city_counts srt filtered
    = take 10 (stable_sort_desc snd (city_tally filtered)).
Proof.
  intros Hst. unfold city_counts.
  rewrite (stable_value_counts srt _ Hst).
  by rewrite (stable_nlargest srt _ _ Hst) by apply stable_sort_desc_sorted.
Qed.

Lemma stable_top_cities filtered :
  is_stable srt ->
  top_cities srt filtered
    = take 10 (stable_sort_desc snd (city_tally filtered)).
Proof.
  intros Hst. unfold top_cities.
  rewrite (stable_value_counts srt _ Hst).
  by rewrite (stable_sort_values srt _ Hst) by apply stable_sort_desc_sorted.
Qed.
End CityRankingFacts.

(** C4 (as the code has it). The city ranking counts the rows of each
    city present in the table, one entry per city, and both of its forms
    (lines 150 and 168-171) are the first 10 of those counts arranged in
    descending order of count, so a city with more stores is never below
    one with fewer.  The order among cities of equal count is the one the
    library sort leaves: it is the order of first appearance in the table
    when that sort is stable. *)
Theorem city_ranking {F : Type} `{EqDecision F} (srt : Sorter)
    (filtered : list (@Store F)) :
  (city_tally filtered).*1 = first_seen (dropna (City <$> filtered))
  /\ (forall c n, (c, n) ∈ city_tally filtered ->
        n = length (filter (fun r => City r = Some c) filtered))
  /\ is_top_of 10 (city_tally filtered) (city_counts srt filtered)
  /\ is_top_of 10 (city_tally filtered) (top_cities srt filtered)
  /\ StronglySorted (desc snd) (city_counts srt filtered)
  /\ StronglySorted (desc snd) (top_cities srt filtered)
  /\ (is_stable srt ->
        city_counts srt filtered
          = take 10 (stable_sort_desc snd (city_tally filtered))
        /\ top_cities srt filtered
          = take 10 (stable_sort_desc snd (city_tally filtered))
        /\ forall n,
             filter (fun p => p.2 = n)
                    (stable_sort_desc snd (city_tally filtered))
             = filter (fun p => p.2 = n) (city_tally filtered)).
Proof.
  split; [apply tally_keys|].
  split.
  { intros c n Hin. apply tally_elem in Hin. by rewrite occurrences_city in Hin. }
  split; [apply city_counts_top|]. split; [apply top_cities_top|].
  split; [eapply is_top_of_sorted, city_counts_top|].
  split; [eapply is_top_of_sorted, top_cities_top|].
  intros Hst.
  split; [by apply stable_city_counts|]. split; [by apply stable_top_cities|].
  intros n. apply (stable_sort_desc_filter snd).
Qed.

Lemma city_ranking_witness :
  is_stable stable_sorter
  /\ city_counts stable_sorter eleven_cities
     = take 10 (stable_sort_desc snd (city_tally eleven_cities)).
Proof.
  split; [exact stable_sorter_is_stable|].
  apply (city_ranking stable_sorter eleven_cities), stable_sorter_is_stable.
Defined.

(** C4 as written fails.  Sixty-five cities of one store each are all
    tied; NumPy's scalar quicksort leaves the counts in an order that is
    not the order of first appearance, and the ten largest of line 150
    are C01, C34, C36, ..., C43, whereas first-appearance order would
    rank C01 to C10.  (Up to seventeen tied cities that quicksort is an
    insertion sort and leaves them in place, as on [eleven_cities].) *)
Lemma city_ranking_ties_not_first_seen :
  nargsort_desc (replicate 65 1)
    = Some [0; 33; 35; 36; 37; 38; 39; 40; 41; 42; 43; 44; 45; 46; 47; 48;
            49; 50; 51; 52; 53; 54; 55; 56; 57; 58; 59; 60; 61; 62; 63; 34;
            32; 1; 31; 2; 3; 4; 5; 6; 7; 8; 9; 10; 11; 12; 13; 14; 15; 16;
            17; 18; 19; 20; 21; 22; 23; 24; 25; 26; 27; 28; 29; 30; 64]
  /\ city_counts numpy_sorter sixty_five_cities
    = [("C01", 1); ("C34", 1); ("C36", 1); ("C37", 1); ("C38", 1);
       ("C39", 1); ("C40", 1); ("C41", 1); ("C42", 1); ("C43", 1)]
  /\ take 10 (stable_sort_desc snd (city_tally sixty_five_cities))
    = [("C01", 1); ("C02", 1); ("C03", 1); ("C04", 1); ("C05", 1);
       ("C06", 1); ("C07", 1); ("C08", 1); ("C09", 1); ("C10", 1)].
Proof. repeat split; vm_compute; reflexivity. Qed.

(** On eleven tied cities the same sort leaves the order of first
    appearance, in both forms of the ranking. *)
Example ranking_eleven_ties :
  city_counts numpy_sorter eleven_cities
    = [("A", 1); ("B", 1); ("C", 1); ("D", 1); ("E", 1);
       ("F", 1); ("G", 1); ("H", 1); ("I", 1); ("J", 1)]
  /\ top_cities numpy_sorter eleven_cities
    = [("A", 1); ("B", 1); ("C", 1); ("D", 1); ("E", 1);
       ("F", 1); ("G", 1); ("H", 1); ("I", 1); ("J", 1)].
Proof. split; vm_compute; reflexivity. Qed.

(** Counts A:5, B:5, C:3: A and B come before C. *)
Example ranking_a5_b5_c3 :
  city_counts stable_sorter a5_b5_c3 = [("A", 5); ("B", 5); ("C", 3)]
  /\ top_cities stable_sorter a5_b5_c3 = [("A", 5); ("B", 5); ("C", 3)].
Proof. split; vm_compute; reflexivity. Qed.

(** With any sort that meets the interface, C is ranked third, after A
    and B in one order or the other. *)
Lemma ranking_a5_b5_c3_any (srt : Sorter) :
  exists first second,
    city_counts srt a5_b5_c3 = [first; second; ("C", 3)]
    /\ first.2 = 5 /\ second.2 = 5.
Proof.
  pose proof (is_top_of_counts 10 _ _ _
                (city_counts_top srt a5_b5_c3)
                (city_counts_top stable_sorter a5_b5_c3)) as Hcounts.
  destruct (city_counts_top srt a5_b5_c3) as (full & Hrank & Hperm & _).
  assert (forall p, p ∈ city_counts srt a5_b5_c3 -> p.2 = 3 -> p = ("C", 3))
    as Hthree.
  { intros p Hp Hp3. rewrite Hrank in Hp.
    apply (subseteq_take 10 full) in Hp.
    rewrite Hperm in Hp. vm_compute in Hp.
    repeat (apply elem_of_cons in Hp as [->|Hp]; [done|]).
    by apply not_elem_of_nil in Hp. }
  destruct (city_counts srt a5_b5_c3) as [|a [|b [|c [|d r]]]];
    try discriminate Hcounts.
  injection Hcounts as Ha Hb Hc.
  exists a, b. rewrite (Hthree c); [done| |done].
  do 2 right. by left.
Qed.

(** C10 (as the code has it). The two top-10 computations of the Top
    Cities tab always show the same sequence of counts.  They are the
    same list when at most 10 cities are present or when the library
    sort is stable, and they hold the same cities with the same counts
    when no city past the tenth has as many stores as one of the ten. *)
Theorem top10_two_ways {F : Type} `{EqDecision F} (srt : Sorter)
    (filtered : list (@Store F)) :
  ((city_counts srt filtered).*2 = (top_cities srt filtered).*2)
  /\ (length (city_tally filtered) <= 10 ->
        city_counts srt filtered = top_cities srt filtered)
  /\ (is_stable srt -> city_counts srt filtered = top_cities srt filtered)
  /\ (forall m,
        Forall (fun p => m < p.2) (top_cities srt filtered) ->
        Forall (fun p => p.2 <= m)
               (drop 10 (sort_values srt
                           (value_counts srt (City <$> filtered)))) ->
        city_counts srt filtered ≡ₚ top_cities srt filtered).
Proof.
  split.
  { eapply is_top_of_counts; [apply city_counts_top|apply top_cities_top]. }
  split.
  { intros Hlen. unfold city_counts, top_cities, nlargest, sort_values.
    assert (length (value_counts srt (City <$> filtered)) <= 10) as Hle.
    { unfold city_tally in Hlen.
      by rewrite (Permutation_length
                    (value_counts_perm srt (City <$> filtered))). }
    apply Nat.leb_le in Hle. by rewrite Hle. }
  split.
  { intros Hst. by rewrite stable_city_counts, stable_top_cities. }
  intros m Habove Hbelow. unfold city_counts, top_cities, nlargest in *.
  destruct (length _ <=? 10); [done|].
  apply (take_same_members snd _ _ 10 m); [| |done..].
  - unfold sort_values. by rewrite stable_sort_desc_perm, sort_desc_perm.
  - apply sorted_counts_unique.
    + unfold sort_values. by rewrite stable_sort_desc_perm, sort_desc_perm.
    + apply stable_sort_desc_sorted.
    + apply sort_desc_sorted.
Qed.

Lemma top10_two_ways_witness :
  is_stable stable_sorter
  /\ city_counts stable_sorter eleven_cities
     = top_cities stable_sorter eleven_cities.
Proof.
  split; [exact stable_sorter_is_stable|].
  apply (top10_two_ways stable_sorter eleven_cities), stable_sorter_is_stable.
Defined.

(** C10 as written fails.  On the sixty-five tied cities the ten of
    line 150 are the first ten of the counts as [value_counts] left
    them, while lines 168-171 sort those counts once more, which brings
    them back to the order of first appearance: the table shows C02, the
    bar chart does not, and the bar chart shows C34, the table does
    not. *)
Lemma top10_two_ways_differ :
  city_counts numpy_sorter sixty_five_cities
    = [("C01", 1); ("C34", 1); ("C36", 1); ("C37", 1); ("C38", 1);
       ("C39", 1); ("C40", 1); ("C41", 1); ("C42", 1); ("C43", 1)]
  /\ top_cities numpy_sorter sixty_five_cities
    = [("C01", 1); ("C02", 1); ("C03", 1); ("C04", 1); ("C05", 1);
       ("C06", 1); ("C07", 1); ("C08", 1); ("C09", 1); ("C10", 1)]
  /\ (("C02", 1) ∈ top_cities numpy_sorter sixty_five_cities)
  /\ (("C02", 1) ∉ city_counts numpy_sorter sixty_five_cities)
  /\ (("C34", 1) ∈ city_counts numpy_sorter sixty_five_cities)
  /\ (("C34", 1) ∉ top_cities numpy_sorter sixty_five_cities).
Proof.
  assert (top_cities numpy_sorter sixty_five_cities
          = [("C01", 1); ("C02", 1); ("C03", 1); ("C04", 1); ("C05", 1);
             ("C06", 1); ("C07", 1); ("C08", 1); ("C09", 1); ("C10", 1)])
    as Htable by (vm_compute; reflexivity).
  assert (city_counts numpy_sorter sixty_five_cities
          = [("C01", 1); ("C34", 1); ("C36", 1); ("C37", 1); ("C38", 1);
             ("C39", 1); ("C40", 1); ("C41", 1); ("C42", 1); ("C43", 1)])
    as Hchart by (vm_compute; reflexivity).
  rewrite Htable, Hchart. repeat split; compute_done.
Qed.

(** ** Cross-tabulation totals *)

Section KeySum.
Context {A B : Type} `{EqDecision B} (f : A -> B) (w : A -> nat).

(** Splitting a list by key and adding up the groups loses nothing,
    provided every key of the list is among the groups, once. *)
Lemma sum_by_key (ks : list B) (l : list A) :
  NoDup ks ->
  (forall x, x ∈ l -> f x ∈ ks) ->
  sum_list ((fun k => sum_list_with w (filter (fun x => f x = k) l)) <$> ks)
    = sum_list_with w l.
Proof.
  revert l. induction ks as [|k ks IH]; intros l Hnd Hks.
  - destruct l as [|x l]; [done|].
    exfalso. eapply not_elem_of_nil, (Hks x). by left.
  - apply NoDup_cons in Hnd as [Hk Hnd].
    rewrite fmap_cons.
    change (sum_list (?x :: ?xs)) with (x + sum_list xs).
    rewrite <- (sum_list_with_Permutation_proper w _ _
                  (filter_app_complement (fun x => f x = k) l)).
    rewrite sum_list_with_app. f_equal.
    rewrite <- (IH (filter (fun x => ~ f x = k) l)); [|done|].
    + f_equal. apply Forall_fmap_ext_1, Forall_forall. intros k' Hk'.
      rewrite list_filter_filter. f_equal. apply list_filter_iff.
      intros x. split; [|tauto]. intros <-. split; [done|].
      intros Heq. apply Hk. by rewrite <- Heq.
    + intros x [Hx Hin]%list_elem_of_filter.
      apply Hks in Hin. apply elem_of_cons in Hin as [?|?]; done.
Qed.
End KeySum.

Section CrosstabFacts.
Context {I : Type} `{EqDecision I} (leb : I -> I -> bool).
Implicit Types (obs : list (@Obs I)).

Lemma weight_sum_with obs : weight obs = sum_list_with snd obs.
Proof.
  unfold weight. induction obs as [|o obs IH]; [done|].
  rewrite fmap_cons. simpl. by rewrite <- IH.
Qed.

Lemma sorted_unique_NoDup {K} `{EqDecision K} (le : K -> K -> bool)
    (l : list K) :
  NoDup (isort le (unique l)).
Proof. rewrite isort_perm. apply tally_NoDup. Qed.

Lemma sorted_unique_elem {K} `{EqDecision K} (le : K -> K -> bool)
    (l : list K) x :
  x ∈ isort le (unique l) <-> x ∈ l.
Proof.
  rewrite isort_perm. unfold unique. rewrite tally_keys.
  apply first_seen_elem.
Qed.

(** The cells of a cross-tabulation add up to what its rows bring. *)
Lemma crosstab_cells_sum obs :
  cells_sum (crosstab leb obs) = weight obs.
Proof.
  unfold cells_sum, crosstab. cbn [cells].
  rewrite <- list_fmap_compose, weight_sum_with.
  etrans; [|apply (sum_by_key (fun o : Obs => o.1.1) snd
                     (isort leb (unique (obs.*1.*1))) obs)].
  - f_equal. apply Forall_fmap_ext_1, Forall_forall. intros i _.
    cbn [compose].
    etrans; [|apply (sum_by_key (fun o : Obs => o.1.2) snd
                       (isort String.leb (unique (obs.*1.*2))))].
    + f_equal. apply Forall_fmap_ext_1, Forall_forall. intros c _.
      unfold cell. rewrite weight_sum_with, list_filter_filter.
      f_equal. apply list_filter_iff. intros o. tauto.
    + apply sorted_unique_NoDup.
    + intros o [_ Ho]%list_elem_of_filter. apply sorted_unique_elem.
      apply list_elem_of_fmap. exists o.1. split; [done|].
      apply list_elem_of_fmap. by exists o.
  - apply sorted_unique_NoDup.
  - intros o Ho. apply sorted_unique_elem.
    apply list_elem_of_fmap. exists o.1. split; [done|].
    apply list_elem_of_fmap. by exists o.
Qed.
(** The long form holds one triple for every column and every index
    key, with the count of that cell. *)
Lemma zip_with_seq {A B} (g : A -> nat -> B) (h : A -> B) (l : list A) s :
  (forall j a, l !! j = Some a -> g a (s + j) = h a) ->
  zip_with g l (seq s (length l)) = h <$> l.
Proof.
  revert s. induction l as [|a l IH]; intros s Hgh; [done|].
  simpl. f_equal.
  - rewrite <- (Hgh 0 a) by done. f_equal. lia.
  - apply IH. intros j b Hj. rewrite <- (Hgh (S j) b) by done. f_equal. lia.
Qed.

Lemma melt_crosstab obs :
  melt (crosstab leb obs)
    = mjoin ((fun c => (fun i => (i, c, cell obs i c))
                         <$> isort leb (unique (obs.*1.*1)))
               <$> isort String.leb (unique (obs.*1.*2))).
Proof.
  unfold melt, crosstab. cbn [index columns cells]. f_equal.
  apply (zip_with_seq _ _ _ 0). intros j c Hj.
  rewrite zip_with_fmap_r, zip_with_diag.
  apply Forall_fmap_ext_1, Forall_forall. intros i _.
  change (0 + j) with j. by rewrite list_lookup_fmap, Hj.
Qed.

Lemma melt_total obs :
  sum_list ((melt (crosstab leb obs)).*2) = weight obs.
Proof.
  rewrite melt_crosstab, weight_sum_with.
  etrans; [|apply (sum_by_key (fun o : Obs => o.1.2) snd
                     (isort String.leb (unique (obs.*1.*2))) obs)].
  - induction (isort String.leb (unique (obs.*1.*2))) as [|c cols IH];
      [done|].
    rewrite !fmap_cons. cbn [mjoin list_join].
    rewrite fmap_app, sum_list_with_app.
    change (sum_list (?x :: ?xs)) with (x + sum_list xs).
    f_equal; [|exact IH].
    rewrite <- list_fmap_compose.
    etrans; [|apply (sum_by_key (fun o : Obs => o.1.1) snd
                       (isort leb (unique (obs.*1.*1))))].
    + f_equal. apply Forall_fmap_ext_1, Forall_forall. intros i _.
      cbn [compose snd]. unfold cell.
      rewrite weight_sum_with, list_filter_filter. done.
    + apply sorted_unique_NoDup.
    + intros o [_ Ho]%list_elem_of_filter. apply sorted_unique_elem.
      apply list_elem_of_fmap. exists o.1. split; [done|].
      apply list_elem_of_fmap. by exists o.
  - apply sorted_unique_NoDup.
  - intros o Ho. apply sorted_unique_elem.
    apply list_elem_of_fmap. exists o.1. split; [done|].
    apply list_elem_of_fmap. by exists o.
Qed.
End CrosstabFacts.

(** Rows that bring 1 when they satisfy [P] and nothing otherwise bring
    the number of rows that satisfy [P]. *)
Lemma weight_omap {A I : Type} (g : A -> option (@Obs I)) (P : A -> Prop)
    `{!forall x, Decision (P x)} (rows : list A) :
  (forall r, P r -> exists o, g r = Some o /\ o.2 = 1) ->
  (forall r, ~ P r -> g r = None \/ exists o, g r = Some o /\ o.2 = 0) ->
  weight (omap g rows) = length (filter P rows).
Proof.
  intros Hyes Hno. unfold weight.
  induction rows as [|r rows IH]; [done|].
  rewrite filter_cons. cbn [omap list_omap].
  destruct (decide (P r)) as [Hr|Hr].
  - destruct (Hyes r Hr) as (o & -> & Ho).
    rewrite fmap_cons. simpl. by rewrite Ho, IH.
  - destruct (Hno r Hr) as [->|(o & -> & Ho)]; [done|].
    rewrite fmap_cons. simpl. by rewrite Ho, IH.
Qed.

Section PivotFacts.
Context {F : Type} `{EqDecision F}.
Implicit Types (rows : list (@Store F)).

Lemma pivot_weight rows :
  weight (omap pivot_obs rows)
    = length (filter (fun r => is_Some (City r)
                               /\ is_Some (OwnershipType r)
                               /\ is_Some (StoreNumber r)) rows).
Proof.
  apply weight_omap; intros r; unfold pivot_obs.
  - intros ([c ->] & [o ->] & [n ->]). by eexists.
  - intros Hr.
    destruct (City r) as [c|]; [|by left].
    destruct (OwnershipType r) as [o|]; [|by left].
    destruct (StoreNumber r) as [n|]; [|right; by eexists].
    destruct Hr. by repeat split.
Qed.

Lemma apply_to_year year_of rows :
  (forall r s, r ∈ rows -> FirstSeen r = Some s -> is_Some (year_of s)) ->
  apply (to_year year_of) (FirstSeen <$> rows)
    = Ok (year_cell year_of <$> rows).
Proof.
  induction rows as [|r rows IH]; intros Hok; [done|].
  rewrite !fmap_cons. cbn [apply]. rewrite IH.
  - unfold year_cell, to_year.
    destruct (FirstSeen r) as [s|] eqn:Hs; [|done].
    destruct (Hok r s) as [y Hy]; [by left|done|].
    simpl. by rewrite Hy.
  - intros r' s Hin. apply Hok. by right.
Qed.

Lemma apply_to_year_inv year_of rows years :
  apply (to_year year_of) (FirstSeen <$> rows) = Ok years ->
  years = year_cell year_of <$> rows.
Proof.
  revert years. induction rows as [|r rows IH]; intros years Hap.
  - by injection Hap as <-.
  - rewrite fmap_cons in Hap. cbn [apply] in Hap.
    destruct (to_year year_of (FirstSeen r)) as [y|e] eqn:Hy; [|done].
    simpl in Hap.
    destruct (apply (to_year year_of) (FirstSeen <$> rows)) as [ys|e] eqn:Hys;
      [|done].
    simpl in Hap. injection Hap as <-. rewrite fmap_cons, <- (IH ys) by done.
    f_equal. unfold year_cell, to_year in *.
    destruct (FirstSeen r) as [s|]; simpl; [|congruence].
    destruct (year_of s); congruence.
Qed.

Lemma zip_year_obs year_of rows :
  omap id (zip_with year_obs (year_cell year_of <$> rows) rows)
    = omap (year_row_obs year_of) rows.
Proof.
  induction rows as [|r rows IH]; [done|].
  rewrite fmap_cons. cbn [zip_with omap list_omap]. rewrite IH.
  unfold year_row_obs. by destruct (year_obs _ r).
Qed.

Lemma year_weight year_of rows :
  weight (omap (year_row_obs year_of) rows)
    = length (filter (fun r => is_Some (year_cell year_of r)
                               /\ is_Some (OwnershipType r)) rows).
Proof.
  apply weight_omap; intros r; unfold year_row_obs, year_obs.
  - intros ([y ->] & [o ->]). by eexists.
  - intros Hr.
    destruct (year_cell year_of r) as [y|]; [|by left].
    destruct (OwnershipType r) as [o|]; [|by left].
    destruct Hr. by repeat split.
Qed.
End PivotFacts.

Lemma filter_all_length {A} (P : A -> Prop) `{!forall x, Decision (P x)}
    (l : list A) :
  (forall x, x ∈ l -> P x) -> length (filter P l) = length l.
Proof.
  induction l as [|x l IH]; intros Hall; [done|].
  rewrite filter_cons, decide_True by (apply Hall; by left).
  simpl. f_equal. apply IH. intros y Hy. apply Hall. by right.
Qed.

(** C3 (as the code has it). The cells of the city x ownership-type
    pivot add up to the number of rows of its input whose City,
    OwnershipType and StoreNumber are all present, hence to the row count
    when no row lacks one of them.  The year x ownership-type counts of a
    table exist whenever every FirstSeen text parses, and their cells (in
    the wide and in the long form) add up to the number of rows of that
    table whose year and OwnershipType are present, hence to its row
    count when none is missing. *)
Theorem crosstab_totals {F : Type} `{EqDecision F}
    (filtered df : list (@Store F)) (year_of : string -> option Z) :
  cells_sum (pivot_table filtered)
    = length (filter (fun r => is_Some (City r)
                               /\ is_Some (OwnershipType r)
                               /\ is_Some (StoreNumber r)) filtered)
  /\ ((forall r, r ∈ filtered ->
         is_Some (City r) /\ is_Some (OwnershipType r)
         /\ is_Some (StoreNumber r)) ->
      cells_sum (pivot_table filtered) = length filtered)
  /\ (forall wide, store_counts_by_year year_of df = Ok wide ->
        cells_sum wide
          = length (filter (fun r => is_Some (year_cell year_of r)
                                     /\ is_Some (OwnershipType r)) df))
  /\ (forall long, store_counts_long year_of df = Ok long ->
        sum_list (long.*2)
          = length (filter (fun r => is_Some (year_cell year_of r)
                                     /\ is_Some (OwnershipType r)) df))
  /\ ((forall r s, r ∈ df -> FirstSeen r = Some s -> is_Some (year_of s)) ->
      exists wide,
        store_counts_by_year year_of df = Ok wide
        /\ cells_sum wide
           = length (filter (fun r => is_Some (year_cell year_of r)
                                      /\ is_Some (OwnershipType r)) df)
        /\ ((forall r, r ∈ df ->
               is_Some (FirstSeen r) /\ is_Some (OwnershipType r)) ->
            cells_sum wide = length df)).
Proof.
  assert (cells_sum (pivot_table filtered)
          = length (filter (fun r => is_Some (City r)
                                     /\ is_Some (OwnershipType r)
                                     /\ is_Some (StoreNumber r)) filtered))
    as Hpivot.
  { unfold pivot_table. by rewrite crosstab_cells_sum, pivot_weight. }
  assert (forall wide, store_counts_by_year year_of df = Ok wide ->
            cells_sum wide
            = length (filter (fun r => is_Some (year_cell year_of r)
                                       /\ is_Some (OwnershipType r)) df))
    as Hyear.
  { intros wide Hw. unfold store_counts_by_year in Hw.
    destruct (apply (to_year year_of) (FirstSeen <$> df)) as [years|e] eqn:Hap;
      [|done].
    simpl in Hw. injection Hw as <-.
    rewrite (apply_to_year_inv _ _ _ Hap), crosstab_cells_sum, zip_year_obs.
    apply year_weight. }
  split; [done|]. split.
  { intros Hall. rewrite Hpivot. by apply filter_all_length. }
  split; [done|]. split.
  { intros long Hl. unfold store_counts_long, store_counts_by_year in Hl.
    destruct (apply (to_year year_of) (FirstSeen <$> df)) as [years|e] eqn:Hap;
      [|done].
    simpl in Hl. injection Hl as <-.
    rewrite (apply_to_year_inv _ _ _ Hap), melt_total, zip_year_obs.
    apply year_weight. }
  intros Hparse.
  exists (crosstab Z.leb
            (omap id (zip_with year_obs (year_cell year_of <$> df) df))).
  assert (store_counts_by_year year_of df
          = Ok (crosstab Z.leb
                  (omap id (zip_with year_obs (year_cell year_of <$> df) df))))
    as Hok.
  { unfold store_counts_by_year. by rewrite apply_to_year. }
  split; [done|]. split; [by apply Hyear|].
  intros Hall. rewrite (Hyear _ Hok). apply filter_all_length.
  intros r Hr. destruct (Hall r Hr) as [[s Hs] Ho]. split; [|done].
  unfold year_cell. rewrite Hs. simpl. by apply (Hparse r s).
Qed.

Lemma crosstab_totals_witness :
  cells_sum (pivot_table two_stores) = length two_stores
  /\ exists wide,
       store_counts_by_year year_2013 two_stores = Ok wide
       /\ cells_sum wide = length two_stores.
Proof.
  destruct (crosstab_totals two_stores two_stores year_2013)
    as (_ & Hpivot & _ & _ & Hyear).
  split.
  - apply Hpivot. intros r Hr.
    repeat (apply elem_of_cons in Hr as [->|Hr]; [by repeat split|]).
    by apply not_elem_of_nil in Hr.
  - destruct Hyear as (wide & Hw & _ & Hlen).
    + intros r s Hr Hs.
      repeat (apply elem_of_cons in Hr as [->|Hr];
              [injection Hs as <-; by eexists|]).
      by apply not_elem_of_nil in Hr.
    + exists wide. split; [done|]. apply Hlen. intros r Hr.
      repeat (apply elem_of_cons in Hr as [->|Hr]; [by repeat split|]).
      by apply not_elem_of_nil in Hr.
Defined.

(** C3 as written fails: filtering by country keeps a row without a
    city, and the pivot leaves that row out of every cell. *)
Lemma pivot_total_below_row_count :
  exists filtered,
    filtered_data (no_city_store :: two_stores) (Str "US") [] = Ok filtered
    /\ length filtered = 3
    /\ cells_sum (pivot_table filtered) = 2.
Proof.
  exists (no_city_store :: two_stores). repeat split; vm_compute; reflexivity.
Qed.

(** ** The empty table *)

Lemma sort_desc_nil (srt : Sorter) {A} (key : A -> nat) :
  sort_desc srt key [] = [].
Proof. apply Permutation_nil_r, sort_desc_perm. Qed.

Lemma value_counts_nil (srt : Sorter) {K} `{EqDecision K} :
  value_counts srt (@nil (option K)) = [].
Proof. unfold value_counts. simpl. apply sort_desc_nil. Qed.

(** C9. On a table with no rows every aggregation returns without
    raising, and what it returns is empty: both city rankings, both
    ownership-type counts, the pivot (no index, no columns, no cells, total
    0) and the year x ownership-type counts in wide and in long form. *)
Theorem empty_table_aggregations {F : Type} `{EqDecision F} (srt : Sorter)
    (year_of : string -> option Z) :
  city_counts srt (@nil (@Store F)) = []
  /\ top_cities srt (@nil (@Store F)) = []
  /\ ownership_counts_pie srt (@nil (@Store F)) = []
  /\ ownership_counts_bar srt (@nil (@Store F)) = []
  /\ pivot_table (@nil (@Store F)) = mkCrosstab [] [] []
  /\ cells_sum (pivot_table (@nil (@Store F))) = 0
  /\ store_counts_by_year year_of (@nil (@Store F)) = Ok (mkCrosstab [] [] [])
  /\ store_counts_long year_of (@nil (@Store F)) = Ok [].
Proof.
  unfold city_counts, top_cities, ownership_counts_pie, ownership_counts_bar.
  unfold sort_values, nlargest. rewrite !fmap_nil, !value_counts_nil.
  simpl. rewrite !sort_desc_nil. by repeat split.
Qed.

(** A selection that matches no row leaves the empty table. *)
Example empty_selection :
  filtered_data two_stores (Str "FR") [] = Ok [].
Proof. reflexivity. Qed.

(** ** Ownership-type distribution *)

Lemma value_counts_total (srt : Sorter) {K} `{EqDecision K}
    (l : list (option K)) :
  total (value_counts srt l) = length (dropna l).
Proof.
  unfold total.
  rewrite (sum_list_with_Permutation_proper id _ _
             (fmap_Permutation snd _ _ (value_counts_perm srt l))).
  apply tally_total.
Qed.

(** One table gives one distribution: the two counts agree when they
    are taken from the same rows. *)
Lemma ownership_counts_same_table {F : Type} `{EqDecision F} (srt : Sorter)
    (t : list (@Store F)) :
  ownership_counts_pie srt t = ownership_counts_bar srt t.
Proof. reflexivity. Qed.

(** C6. The tab does not draw its two charts from the same counts: with
    one US store and one Canadian store loaded and 'US' selected, the pie
    counts the one filtered row and the bar counts both loaded rows,
    whatever the sort. *)
Theorem ownership_charts_disagree (srt : Sorter) :
  exists pie bar,
    ownership_distribution srt us_and_ca (Str "US") [] = Ok (pie, bar)
    /\ total pie = 1
    /\ total bar = 2
    /\ pie <> bar.
Proof.
  eexists _, _. split; [reflexivity|].
  assert (forall l : list (option string),
            total (value_counts srt l) = length (dropna l)) as Htot
    by (intros; apply value_counts_total).
  split; [apply Htot|]. split; [apply Htot|].
  intros Heq. apply (f_equal total) in Heq.
  unfold ownership_counts_pie, ownership_counts_bar in Heq.
  rewrite !Htot in Heq. discriminate Heq.
Qed.

Example ownership_charts_us :
  ownership_distribution stable_sorter us_and_ca (Str "US") []
    = Ok ([("CO", 1)], [("CO", 1); ("LS", 1)]).
Proof. reflexivity. Qed.

(** * Further properties of the data layer *)

(** ** Splitting an identifier *)

(** Joining the segments with the separator gives the string back. *)
Lemma concat_split sep s :
  String.concat (String sep EmptyString) (split sep s) = s.
Proof.
  induction s as [|c s IH]; [done|].
  simpl. destruct (Ascii.eqb_spec c sep) as [->|Hne].
  - pose proof (split_not_nil sep s) as Hnil.
    destruct (split sep s) as [|seg segs]; [done|].
    cbn [String.concat]. cbn [String.concat] in IH. simpl. by rewrite IH.
  - pose proof (split_not_nil sep s) as Hnil.
    destruct (split sep s) as [|seg segs]; [done|].
    destruct segs as [|seg' segs]; simpl in *; by rewrite <- IH.
Qed.

Lemma split_no_separator sep s :
  Forall (fun seg => sep ∉ list_ascii_of_string seg) (split sep s).
Proof.
  induction s as [|c s IH]; simpl.
  - constructor; [apply not_elem_of_nil|constructor].
  - destruct (Ascii.eqb_spec c sep) as [->|Hne].
    + constructor; [apply not_elem_of_nil|done].
    + destruct (split sep s) as [|seg segs].
      * constructor; [|constructor]. simpl.
        intros [?|Hin]%elem_of_cons; [done|]. by apply not_elem_of_nil in Hin.
      * apply Forall_cons in IH as [Hseg Hsegs].
        constructor; [|done]. simpl.
        intros [?|Hin]%elem_of_cons; done.
Qed.

(** X1. Splitting on a character and joining with it is the identity, no
    segment holds the separator, and there is one segment more than there
    are separators in the string. *)
Theorem split_round_trip (sep : ascii) (s : string) :
  String.concat (String sep EmptyString) (split sep s) = s
  /\ Forall (fun seg => sep ∉ list_ascii_of_string seg) (split sep s)
  /\ length (split sep s)
     = S (length (filter (fun c => c = sep) (list_ascii_of_string s))).
Proof.
  split; [apply concat_split|]. split; [apply split_no_separator|].
  induction s as [|c s IH]; [done|].
  simpl. rewrite filter_cons.
  destruct (Ascii.eqb_spec c sep) as [->|Hne].
  - rewrite decide_True by done. simpl. by rewrite IH.
  - rewrite decide_False by done.
    pose proof (split_not_nil sep s) as Hnil.
    destruct (split sep s) as [|seg segs]; [done|]. simpl in *. done.
Qed.

Lemma append_cons (x : ascii) (a b : string) :
  String x a +:+ b = String x (a +:+ b).
Proof. reflexivity. Qed.

Lemma string_app_assoc (a b c : string) : (a +:+ b) +:+ c = a +:+ b +:+ c.
Proof.
  induction a as [|x a IH]; [done|]. rewrite !append_cons. by rewrite IH.
Qed.

Lemma concat_snoc sep (l : list string) x :
  String.concat sep (l ++ [x])
  = match l with
    | [] => x
    | _ :: _ => String.concat sep l +:+ sep +:+ x
    end.
Proof.
  induction l as [|y l IH]; [done|].
  destruct l as [|z l]; [done|].
  change (String.concat sep ((y :: z :: l) ++ [x]))
    with (y +:+ sep +:+ String.concat sep ((z :: l) ++ [x])).
  rewrite IH.
  change (String.concat sep (y :: z :: l))
    with (y +:+ sep +:+ String.concat sep (z :: l)).
  by rewrite !string_app_assoc.
Qed.

Lemma split_without_separator sep s :
  sep ∉ list_ascii_of_string s -> split sep s = [s].
Proof.
  induction s as [|c s IH]; [done|]. simpl. intros Hnot.
  destruct (Ascii.eqb_spec c sep) as [->|Hne].
  - destruct Hnot. by left.
  - rewrite IH; [done|]. intros Hin. apply Hnot. by right.
Qed.

Lemma split_app sep pre t :
  split sep (pre +:+ String sep t) = split sep pre ++ split sep t.
Proof.
  induction pre as [|c pre IH].
  - change (EmptyString +:+ String sep t) with (String sep t).
    simpl. by rewrite Ascii.eqb_refl.
  - rewrite append_cons. simpl.
    destruct (Ascii.eqb c sep); [by rewrite IH|].
    rewrite IH. pose proof (split_not_nil sep pre) as Hnil.
    by destruct (split sep pre).
Qed.

(** X2. The suffix the density rule reads is the part of the identifier
    after its last '-' (the whole identifier when it has none): it holds
    no '-', the identifier ends with it, and any such decomposition is the
    one [suffix] finds. *)
Theorem suffix_after_last_separator (s seg : string) :
  suffix s = Ok seg
  <-> ("-"%char ∉ list_ascii_of_string seg)
      /\ (s = seg \/ exists pre, s = pre +:+ String "-" seg).
Proof.
  unfold suffix, index_last. split.
  - destruct (last (split "-" s)) as [x|] eqn:Hlast; [|done].
    intros [= ->]. apply last_Some in Hlast as [init Hinit].
    pose proof (split_no_separator "-" s) as Hno.
    pose proof (concat_split "-" s) as Hjoin.
    rewrite Hinit in Hno, Hjoin.
    rewrite Forall_app, Forall_singleton in Hno. destruct Hno as [_ Hseg].
    split; [done|]. rewrite concat_snoc in Hjoin.
    destruct init as [|y init]; [by left|].
    right. exists (String.concat "-" (y :: init)). by rewrite <- Hjoin.
  - intros [Hno [->|[pre ->]]].
    + by rewrite split_without_separator.
    + rewrite split_app, last_app, split_without_separator by done. done.
Qed.

(** ** The integer read from the suffix *)

Lemma digit_of_range c d : digit_of c = Some d -> (0 <= d <= 9)%Z.
Proof.
  unfold digit_of.
  destruct (48 <=? nat_of_ascii c) eqn:Hlo; [|done].
  destruct (nat_of_ascii c <=? 57) eqn:Hhi; [|done].
  simpl. intros [= <-].
  apply Nat.leb_le in Hlo. apply Nat.leb_le in Hhi. lia.
Qed.

Lemma digits_lower_bound acc prev l n :
  digits acc prev l = Some n -> (0 <= acc)%Z -> (acc <= n)%Z.
Proof.
  revert acc prev. induction l as [|c l IH]; intros acc prev; simpl.
  - destruct prev; [|done]. intros [= <-] _. lia.
  - destruct (digit_of c) as [d|] eqn:Hd.
    + intros Hn Hacc. apply digit_of_range in Hd.
      apply IH in Hn; lia.
    + destruct (Ascii.eqb c "_" && prev)%bool; [|done].
      intros Hn Hacc. by apply IH in Hn.
Qed.

Lemma lstrip_elem l x : x ∈ lstrip l -> x ∈ l.
Proof.
  induction l as [|c l IH]; simpl; [done|].
  destruct (is_space c); [|done]. intros Hx. right. by apply IH.
Qed.

Lemma strip_elem l x : x ∈ strip l -> x ∈ l.
Proof.
  assert (forall (k : list ascii) y, y ∈ rev k -> y ∈ k) as Hrev.
  { intros k y Hy. apply list_elem_of_In. apply in_rev.
    by apply list_elem_of_In. }
  unfold strip. intros Hx. by apply lstrip_elem, Hrev, lstrip_elem, Hrev.
Qed.

Lemma parse_int_unsigned s n :
  "-"%char ∉ list_ascii_of_string s -> parse_int s = Some n -> (0 <= n)%Z.
Proof.
  unfold parse_int. intros Hno.
  destruct (count_digits _ <=? max_str_digits); [|done].
  assert ("-"%char ∉ strip (list_ascii_of_string s)) as Hstrip.
  { intros Hin. by apply Hno, strip_elem. }
  unfold signed_digits.
  destruct (strip (list_ascii_of_string s)) as [|c l]; [done|].
  destruct (Ascii.eqb_spec c "+") as [->|_].
  { intros Hn. apply digits_lower_bound in Hn; lia. }
  destruct (Ascii.eqb_spec c "-") as [->|_].
  { destruct Hstrip. by left. }
  intros Hn. apply digits_lower_bound in Hn; lia.
Qed.

Lemma suffix_no_separator s seg :
  suffix s = Ok seg -> "-"%char ∉ list_ascii_of_string seg.
Proof.
  unfold suffix, index_last.
  destruct (last (split "-" s)) as [x|] eqn:Hlast; [|done].
  intros [= ->]. apply last_Some in Hlast as [init Hinit].
  pose proof (split_no_separator "-" s) as Hno.
  rewrite Hinit, Forall_app, Forall_singleton in Hno. by destruct Hno.
Qed.

(** X3. The integer the density rule compares with 1000 is never
    negative: the suffix cannot hold the '-' that a negative literal
    needs. *)
Theorem suffix_integer_nonnegative (s seg : string) (n : Z) :
  suffix s = Ok seg ->
  parse_int seg = Some n ->
  (0 <= n)%Z.
Proof.
  intros Hseg Hn. apply (parse_int_unsigned seg n); [|done].
  by apply (suffix_no_separator s).
Qed.

Lemma suffix_integer_nonnegative_witness :
  suffix "SB--5" = Ok "5" /\ parse_int "5" = Some 5%Z /\ (0 <= 5)%Z.
Proof.
  split; [reflexivity|]. split; [reflexivity|].
  apply (suffix_integer_nonnegative "SB--5" "5" 5); reflexivity.
Defined.

(** X4. On a StoreNumber cell that holds a string the classification
    returns a category or raises ValueError, and nothing else: the split
    always has a last segment, so [-1] cannot raise IndexError, and only
    [int] is left to fail. *)
Theorem density_string_cell (s : string) :
  (exists d, density_category (Some s) = Ok d)
  \/ density_category (Some s) = Raise ValueError.
Proof.
  simpl. destruct (suffix_total s) as [seg ->]. simpl.
  unfold int. destruct (parse_int seg) as [n|]; simpl.
  - left. by eexists.
  - by right.
Qed.

(** ** Preparing the table (lines 30-35) *)

Lemma apply_total {A B} (f : A -> result B) l :
  Forall (fun a => exists b, f a = Ok b) l -> exists bs, apply f l = Ok bs.
Proof.
  induction 1 as [|a l [b Hb] _ [bs Hbs]]; [by exists []|].
  exists (b :: bs). simpl. by rewrite Hb, Hbs.
Qed.

Lemma apply_first_raise {A B} (f : A -> result B) l1 a l2 e :
  Forall (fun x => exists b, f x = Ok b) l1 ->
  f a = Raise e ->
  apply f (l1 ++ a :: l2) = Raise e.
Proof.
  intros Hgood Hbad. induction Hgood as [|x l1 [b Hb] _ IH]; simpl.
  - by rewrite Hbad.
  - by rewrite Hb, IH.
Qed.

Lemma add_density_of_rows {C} (rows : list (Row C unit)) out :
  Forall2 (fun r r' =>
             density_category (StoreNumber r) = Ok (Density_Category r')
             /\ r' = set_density r (Density_Category r'))
          rows out ->
  add_density rows = Ok out.
Proof.
  intros Hrows. unfold add_density.
  assert (apply density_category (StoreNumber <$> rows)
            = Ok (Density_Category <$> out)
          /\ zip_with set_density rows (Density_Category <$> out) = out)
    as [-> Hzip].
  { induction Hrows as [|r r' rows out [Hd Hr] _ [IH1 IH2]]; [done|].
    rewrite !fmap_cons. cbn [apply zip_with]. rewrite Hd, IH1, IH2.
    simpl. by rewrite <- Hr. }
  simpl. by rewrite Hzip.
Qed.

(** X5. The preparation returns a table exactly when every row
    classifies, and the table it returns is the input row by row: same
    length and order, coordinates coerced, the category of the row's own
    StoreNumber attached, every other field untouched. *)
Theorem prepare_exact {F : Type} (parse : string -> option F)
    (raw : list (Row (raw_coord F) unit)) :
  (forall df,
     prepare parse raw = Ok df
     <-> Forall2 (fun r r' =>
           density_category (StoreNumber r) = Ok (Density_Category r')
           /\ r' = set_density (set_coords (to_numeric parse) r)
                               (Density_Category r'))
         raw df)
  /\ ((exists df, prepare parse raw = Ok df)
      <-> Forall (fun r => exists d, density_category (StoreNumber r) = Ok d)
                 raw)
  /\ (forall df, prepare parse raw = Ok df -> length df = length raw).
Proof.
  assert (forall df,
     prepare parse raw = Ok df
     <-> Forall2 (fun r r' =>
           density_category (StoreNumber r) = Ok (Density_Category r')
           /\ r' = set_density (set_coords (to_numeric parse) r)
                               (Density_Category r'))
         raw df) as Hexact.
  { intros df. unfold prepare, coerce_coordinates. split.
    - intros Hp. apply add_density_rows in Hp.
      by apply Forall2_fmap_l in Hp.
    - intros Hrows. apply add_density_of_rows. by apply Forall2_fmap_l. }
  split; [done|]. split.
  - split.
    + intros [df Hdf]. apply Hexact in Hdf. clear Hexact.
      induction Hdf as [|r r' raw' df' [Hd _] _ IH]; [constructor|].
      constructor; [by eexists|done].
    + intros Hall. unfold prepare, add_density.
      destruct (apply_total density_category
                  (StoreNumber <$> coerce_coordinates parse raw))
        as [cats ->]; [|by eexists].
      unfold coerce_coordinates. rewrite <- list_fmap_compose.
      apply Forall_fmap. eapply Forall_impl; [exact Hall|]. by intros r.
  - intros df Hdf. apply Hexact in Hdf. symmetry. by eapply Forall2_length.
Qed.

(** X6. The preparation stops at the first row that does not classify
    and raises that row's exception, whatever the rows after it hold. *)
Theorem prepare_first_failure {F : Type} (parse : string -> option F)
    (good rest : list (Row (raw_coord F) unit)) (bad : Row (raw_coord F) unit)
    (e : exn) :
  Forall (fun r => exists d, density_category (StoreNumber r) = Ok d) good ->
  density_category (StoreNumber bad) = Raise e ->
  prepare parse (good ++ bad :: rest) = Raise e.
Proof.
  intros Hgood Hbad. unfold prepare, add_density, coerce_coordinates.
  rewrite !fmap_app, !fmap_cons.
  rewrite (apply_first_raise density_category _ _ _ e); [done| |done].
  rewrite <- list_fmap_compose. apply Forall_fmap.
  eapply Forall_impl; [exact Hgood|]. by intros r.
Qed.

Lemma prepare_first_failure_witness :
  prepare (fun _ => None)
    [raw_store (Some "A-1500"); raw_store None; raw_store (Some "A-x")]
  = Raise AttributeError.
Proof.
  apply (prepare_first_failure (fun _ => None)
           [raw_store (Some "A-1500")] [raw_store (Some "A-x")]
           (raw_store None) AttributeError).
  - repeat constructor. by eexists.
  - reflexivity.
Defined.

(** ** The sidebar selection (lines 38-50) *)

Section SelectionFacts.
Context {F : Type} `{EqDecision F}.
Implicit Types (df data : list (@Store F)) (values : list (value F)).

Lemma unique_NoDup {K} `{EqDecision K} (l : list K) : NoDup (unique l).
Proof. apply tally_NoDup. Qed.

Lemma unique_elem {K} `{EqDecision K} (l : list K) x : x ∈ unique l <-> x ∈ l.
Proof. unfold unique. rewrite tally_keys. apply first_seen_elem. Qed.

Lemma dropna_elem {K} (l : list (option K)) x : x ∈ dropna l <-> Some x ∈ l.
Proof.
  unfold dropna. rewrite list_elem_of_omap. split.
  - intros (o & Ho & Hid). unfold id in Hid. by subst.
  - intros Hx. by exists (Some x).
Qed.

Lemma present_elem {A} (f : A -> option string) (l : list A) c :
  c ∈ unique (dropna (f <$> l)) <-> exists r, r ∈ l /\ f r = Some c.
Proof.
  rewrite unique_elem, dropna_elem, list_elem_of_fmap. split.
  - intros (r & Hr & Hin). by exists r.
  - intros (r & Hin & Hr). by exists r.
Qed.

Lemma elem_not_nil {A} (x : A) (l : list A) : x ∈ l -> l <> [].
Proof. intros Hx ->. by apply not_elem_of_nil in Hx. Qed.

Lemma of_text_Str (c : option string) (x : string) :
  @of_text F c = Str x <-> c = Some x.
Proof. destruct c; simpl; split; congruence. Qed.

Lemma filtered_data_unfold df (v : value F) values :
  filtered_data df v values
  = Ok (filter (fun r => of_text (CountryCode r) = v
                         /\ (values = [] \/ of_text (City r) ∈ values)) df).
Proof.
  unfold filtered_data.
  rewrite (filter_data_unfold df "CountryCode" [v]
             (fun r => of_text (CountryCode r))) by reflexivity.
  simpl. destruct values as [|w values].
  - f_equal. apply list_filter_iff. intros r. unfold isin.
    rewrite list_elem_of_singleton. tauto.
  - rewrite (filter_data_unfold _ "City" (w :: values)
               (fun r => of_text (City r))) by reflexivity.
    f_equal. rewrite list_filter_filter. apply list_filter_iff.
    intros r. unfold isin. rewrite list_elem_of_singleton.
    split; [tauto|]. intros [? [?|?]]; done.
Qed.
End SelectionFacts.

(** X7. Each sidebar list offers every value present in its column
    exactly once, in order of first appearance, and never a missing
    value. *)
Theorem sidebar_lists {F : Type} (df filtered : list (Row (option F) density)) :
  NoDup (country_list df)
  /\ (forall c, c ∈ country_list df
                <-> exists r, r ∈ df /\ CountryCode r = Some c)
  /\ country_list df = first_seen (dropna (CountryCode <$> df))
  /\ NoDup (city_list filtered)
  /\ (forall c, c ∈ city_list filtered
                <-> exists r, r ∈ filtered /\ City r = Some c)
  /\ city_list filtered = first_seen (dropna (City <$> filtered)).
Proof.
  unfold country_list, city_list.
  split; [apply unique_NoDup|]. split; [intros c; apply present_elem|].
  split; [apply tally_keys|].
  split; [apply unique_NoDup|]. split; [intros c; apply present_elem|].
  apply tally_keys.
Qed.

(** X8. The two filters of lines 40-50 never raise and keep exactly the
    rows of the loaded table whose country is the selected one and, when
    cities are selected, whose city is among them; the rows keep their
    order and content. *)
Theorem filtered_data_rows {F : Type} `{EqDecision F}
    (df : list (@Store F)) (selected_country : value F)
    (selected_cities : list (value F)) :
  exists filtered,
    filtered_data df selected_country selected_cities = Ok filtered
    /\ filtered
       = filter (fun r => of_text (CountryCode r) = selected_country
                          /\ (selected_cities = []
                              \/ of_text (City r) ∈ selected_cities)) df
    /\ filtered `sublist_of` df
    /\ (forall r, r ∈ filtered
          <-> r ∈ df
              /\ of_text (CountryCode r) = selected_country
              /\ (selected_cities = []
                  \/ of_text (City r) ∈ selected_cities)).
Proof.
  eexists. split; [apply filtered_data_unfold|]. split; [done|].
  split; [apply sublist_filter|].
  intros r. rewrite list_elem_of_filter. tauto.
Qed.

(** X9. A country picked from the country list always leaves a
    non-empty table, and so does any non-empty choice of cities picked
    from the city list of that table: the sidebar cannot select zero
    rows. *)
Theorem selection_never_empty {F : Type} `{EqDecision F}
    (df : list (@Store F)) (c : string) :
  c ∈ country_list df ->
  exists by_country,
    filtered_data df (Str c) [] = Ok by_country
    /\ by_country <> []
    /\ Forall (fun r => CountryCode r = Some c) by_country
    /\ forall cities,
         cities <> [] ->
         (forall x, x ∈ cities -> x ∈ city_list by_country) ->
         exists filtered,
           filtered_data df (Str c) (Str <$> cities) = Ok filtered
           /\ filtered <> []
           /\ Forall (fun r => CountryCode r = Some c
                               /\ exists x, x ∈ cities /\ City r = Some x)
                     filtered.
Proof.
  intros Hc. unfold country_list in Hc.
  apply present_elem in Hc as (r & Hr & Hrc).
  eexists. split; [apply filtered_data_unfold|].
  split.
  { apply (elem_not_nil r).
    apply list_elem_of_filter. split; [|done].
    split; [by apply of_text_Str|by left]. }
  split.
  { apply Forall_forall. intros r' [[Hr' _] _]%list_elem_of_filter.
    by apply of_text_Str in Hr'. }
  intros cities Hne Hpick.
  eexists. split; [apply filtered_data_unfold|].
  destruct cities as [|x cities]; [done|].
  split.
  - assert (x ∈ x :: cities) as Hx by left.
    apply Hpick in Hx. unfold city_list in Hx.
    apply present_elem in Hx as (r' & Hr' & Hx).
    apply list_elem_of_filter in Hr' as [[Hc' _] Hin'].
    apply (elem_not_nil r').
    apply list_elem_of_filter. split; [|done].
    split; [done|]. right. rewrite fmap_cons, Hx. by left.
  - apply Forall_forall. intros r' [[Hc' Hcity] _]%list_elem_of_filter.
    split; [by apply of_text_Str in Hc'|].
    destruct Hcity as [Hnil|Hin]; [done|].
    apply list_elem_of_fmap in Hin as (y & Hy & Hin).
    exists y. split; [done|]. by apply (of_text_Str (F:=F)).
Qed.

Lemma selection_never_empty_witness :
  "US" ∈ country_list us_and_ca
  /\ exists by_country,
       filtered_data us_and_ca (Str "US") [] = Ok by_country
       /\ by_country <> [].
Proof.
  assert ("US" ∈ country_list us_and_ca) as Hin by (vm_compute; left).
  split; [exact Hin|].
  destruct (selection_never_empty us_and_ca "US" Hin)
    as (by_country & Hok & Hne & _).
  by exists by_country.
Defined.

(** ** Composing filters *)

Lemma filter_sublist_impl {A} (P Q : A -> Prop)
    `{!forall x, Decision (P x)} `{!forall x, Decision (Q x)} (l : list A) :
  (forall x, P x -> Q x) -> filter P l `sublist_of` filter Q l.
Proof.
  intros HPQ. induction l as [|x l IH]; [done|].
  rewrite !filter_cons. destruct (decide (P x)) as [HP|HP].
  - rewrite decide_True by auto. by constructor.
  - destruct (decide (Q x)); [by constructor|done].
Qed.

(** X10. Two filters can be applied in either order: the result, or the
    KeyError, is the same. *)
Theorem filter_data_commute {F : Type} `{EqDecision F}
    (data : list (@Store F)) (column1 column2 : string)
    (values1 values2 : list (value F)) :
  (do once <- filter_data data column1 values1 in
   filter_data once column2 values2)
  = (do once <- filter_data data column2 values2 in
     filter_data once column1 values1).
Proof.
  unfold filter_data.
  destruct (column_of column1) as [cell1|], (column_of column2) as [cell2|];
    simpl; try done.
  f_equal. rewrite !list_filter_filter. apply list_filter_iff.
  intros r. tauto.
Qed.

(** X11. On a column the table has, an empty list of allowed values
    empties the table (the case the guard of line 49 keeps away from the
    city filter), and allowing more values never loses a row. *)
Theorem filter_data_allowed_values {F : Type} `{EqDecision F}
    (data : list (@Store F)) (column : string) (cell : @Store F -> value F) :
  column_of column = Some cell ->
  filter_data data column [] = Ok []
  /\ forall values values',
       (forall v, v ∈ values -> v ∈ values') ->
       exists out out',
         filter_data data column values = Ok out
         /\ filter_data data column values' = Ok out'
         /\ out `sublist_of` out'.
Proof.
  intros Hcol. split.
  - rewrite (filter_data_unfold _ _ _ _ Hcol). f_equal.
    induction data as [|r data IH]; [done|].
    rewrite filter_cons, decide_False; [done|]. apply not_elem_of_nil.
  - intros values values' Hsub. eexists _, _.
    split; [by apply filter_data_unfold|].
    split; [by apply filter_data_unfold|].
    apply filter_sublist_impl. intros r. apply Hsub.
Qed.

Lemma filter_data_allowed_values_witness :
  filter_data two_stores "City" [] = Ok []
  /\ filtered_data two_stores (Str "US") [] = Ok two_stores.
Proof.
  split; [|reflexivity].
  apply (filter_data_allowed_values two_stores "City"
           (fun r => of_text (City r)) eq_refl).
Defined.

(** ** What the counts hold *)

Section ValueCountsFacts.
Context {K : Type} `{EqDecision K}.
Implicit Types (l : list (option K)).

Lemma occurrences_pos (k : K) (ks : list K) :
  k ∈ ks <-> 1 <= occurrences k ks.
Proof.
  unfold occurrences. induction ks as [|x ks IH].
  - simpl. split; [by intros ?%not_elem_of_nil|lia].
  - rewrite filter_cons, elem_of_cons.
    destruct (decide (x = k)) as [->|Hne]; simpl.
    + split; [lia|by left].
    + rewrite <- IH. split; [by intros [?|?]|by right].
Qed.

Lemma tally_elem_iff (ks : list K) k n :
  (k, n) ∈ tally ks <-> k ∈ ks /\ n = occurrences k ks.
Proof.
  split.
  - intros Hin. split; [|by apply tally_elem].
    apply first_seen_elem. rewrite <- tally_keys.
    apply list_elem_of_fmap. by exists (k, n).
  - intros [Hk ->]. apply first_seen_elem in Hk. rewrite <- tally_keys in Hk.
    apply list_elem_of_fmap in Hk as ([k' n'] & -> & Hin).
    simpl. by rewrite <- (tally_elem _ _ _ Hin).
Qed.

Lemma value_counts_elem srt l k n :
  (k, n) ∈ value_counts srt l
  <-> Some k ∈ l /\ n = occurrences k (dropna l).
Proof.
  rewrite (value_counts_perm srt l), tally_elem_iff.
  unfold dropna. rewrite list_elem_of_omap. split.
  - intros [(o & Ho & Hid) Hn]. unfold id in Hid. by subst.
  - intros [Hk Hn]. split; [|done]. by exists (Some k).
Qed.

Lemma value_counts_NoDup srt l : NoDup (value_counts srt l).*1.
Proof.
  rewrite (fmap_Permutation fst _ _ (value_counts_perm srt l)).
  apply tally_NoDup.
Qed.
End ValueCountsFacts.

Lemma occurrences_field {A} (f : A -> option string) (rows : list A) c :
  occurrences c (dropna (f <$> rows))
    = length (filter (fun r => f r = Some c) rows).
Proof.
  unfold occurrences, dropna.
  induction rows as [|r rows IH]; [done|].
  rewrite fmap_cons. cbn [omap list_omap]. rewrite (filter_cons _ r).
  destruct (f r) as [c'|] eqn:Hc; simpl.
  - rewrite filter_cons. destruct (decide (c' = c)) as [->|Hne].
    + destruct (decide (Some c = Some c)); [|done]. simpl. by rewrite IH.
    + destruct (decide (Some c' = Some c)); [congruence|done].
  - destruct (decide (None = Some c)); done.
Qed.

Lemma length_dropna_field {A} (f : A -> option string) (rows : list A) :
  length (dropna (f <$> rows))
    = length (filter (fun r => is_Some (f r)) rows).
Proof.
  unfold dropna. induction rows as [|r rows IH]; [done|].
  rewrite fmap_cons, filter_cons. cbn [omap list_omap].
  destruct (f r) as [c|].
  - destruct (decide (is_Some (Some c))) as [_|Hn]; [|by destruct Hn].
    simpl. by rewrite IH.
  - destruct (decide (is_Some (@None string))) as [[? ?]|_]; done.
Qed.

(** X13. The ownership-type counts hold one entry for every type present
    in the table and no other: the entry's count is the number of rows of
    that type and is at least 1, the counts come in descending order, and
    together they add up to the number of rows that have a type. *)
Theorem ownership_counts_exact {F : Type} `{EqDecision F} (srt : Sorter)
    (filtered : list (@Store F)) :
  NoDup (ownership_counts_pie srt filtered).*1
  /\ (forall o n,
        (o, n) ∈ ownership_counts_pie srt filtered
        <-> 1 <= n
            /\ n = length (filter (fun r => OwnershipType r = Some o)
                                  filtered))
  /\ StronglySorted (desc snd) (ownership_counts_pie srt filtered)
  /\ total (ownership_counts_pie srt filtered)
     = length (filter (fun r => is_Some (OwnershipType r)) filtered).
Proof.
  unfold ownership_counts_pie.
  split; [apply value_counts_NoDup|]. split.
  - intros o n. rewrite value_counts_elem, occurrences_field.
    rewrite <- dropna_elem, occurrences_pos, occurrences_field.
    split; [by intros [? ->]|by intros [? ->]].
  - split; [apply value_counts_sorted|].
    by rewrite value_counts_total, length_dropna_field.
Qed.

(** X14. Either city ranking holds [min 10 k] entries when [k] cities
    are present, never the same city twice, and only cities that are
    present, each with at least one store; with at most 10 cities every
    city is in the ranking. *)
Theorem city_ranking_shape {F : Type} `{EqDecision F} (srt : Sorter)
    (filtered : list (@Store F)) :
  (length (city_counts srt filtered) = min 10 (length (city_list filtered))
   /\ length (top_cities srt filtered) = min 10 (length (city_list filtered)))
  /\ (NoDup (city_counts srt filtered).*1
      /\ NoDup (top_cities srt filtered).*1)
  /\ (forall c n,
        (c, n) ∈ city_counts srt filtered \/ (c, n) ∈ top_cities srt filtered ->
        c ∈ city_list filtered /\ 1 <= n)
  /\ (length (city_list filtered) <= 10 ->
      city_counts srt filtered ≡ₚ city_tally filtered
      /\ top_cities srt filtered ≡ₚ city_tally filtered).
Proof.
  assert (forall ranking,
            is_top_of 10 (city_tally filtered) ranking ->
            length ranking = min 10 (length (city_list filtered))
            /\ NoDup ranking.*1
            /\ (forall c n, (c, n) ∈ ranking ->
                  c ∈ city_list filtered /\ 1 <= n)
            /\ (length (city_list filtered) <= 10 ->
                ranking ≡ₚ city_tally filtered)) as Hshape.
  { intros ranking (full & -> & Hperm & _).
    assert (length full = length (city_list filtered)) as Hlen.
    { unfold city_list, unique. rewrite length_fmap.
      by apply Permutation_length. }
    split; [by rewrite length_take, Hlen|]. split.
    { rewrite fmap_take. apply (sublist_NoDup _ (full.*1)).
      - rewrite (fmap_Permutation fst _ _ Hperm). apply tally_NoDup.
      - apply sublist_take. }
    split.
    { intros c n Hin. apply (subseteq_take 10 full) in Hin.
      rewrite Hperm in Hin. apply tally_elem_iff in Hin as [Hc ->].
      split; [by apply unique_elem|by apply occurrences_pos]. }
    intros Hle. rewrite take_ge by lia. done. }
  destruct (Hshape _ (city_counts_top srt filtered)) as (L1 & N1 & E1 & P1).
  destruct (Hshape _ (top_cities_top srt filtered)) as (L2 & N2 & E2 & P2).
  split; [done|]. split; [done|]. split.
  - intros c n [Hin|Hin]; [by apply E1|by apply E2].
  - intros Hle. split; [by apply P1|by apply P2].
Qed.

(** X15. Whatever the selection, each ownership type counted for the pie
    is counted for the bar chart too, with a count at least as large, and
    the pie's total never exceeds the bar chart's. *)
Theorem pie_within_bar {F : Type} `{EqDecision F} (srt : Sorter)
    (df filtered : list (@Store F)) (selected_country : value F)
    (selected_cities : list (value F)) :
  filtered_data df selected_country selected_cities = Ok filtered ->
  (forall o n,
     (o, n) ∈ ownership_counts_pie srt filtered ->
     exists m, (o, m) ∈ ownership_counts_bar srt df /\ n <= m)
  /\ total (ownership_counts_pie srt filtered)
     <= total (ownership_counts_bar srt df).
Proof.
  rewrite filtered_data_unfold. intros [= <-].
  unfold ownership_counts_pie, ownership_counts_bar. split.
  - intros o n [Ho ->]%value_counts_elem.
    exists (occurrences o (dropna (OwnershipType <$> df))). split.
    + apply value_counts_elem. split; [|done].
      apply list_elem_of_fmap in Ho as (r & Hr & Hin).
      apply list_elem_of_filter in Hin as [_ Hin].
      apply list_elem_of_fmap. by exists r.
    + rewrite !occurrences_field, list_filter_filter.
      apply sublist_length, filter_sublist_impl. tauto.
  - rewrite !value_counts_total, !length_dropna_field, list_filter_filter.
    apply sublist_length, filter_sublist_impl. tauto.
Qed.

Lemma pie_within_bar_witness :
  filtered_data us_and_ca (Str "US") [] = Ok [sample_store "A-1" "US" "Boston" "CO"]
  /\ total (ownership_counts_pie stable_sorter
              [sample_store "A-1" "US" "Boston" "CO"])
     <= total (ownership_counts_bar stable_sorter us_and_ca).
Proof.
  split; [reflexivity|].
  apply (pie_within_bar stable_sorter us_and_ca _ (Str "US") []). reflexivity.
Defined.

(** ** The layout of a cross-tabulation *)

Section SortedFacts.
Context {A : Type} (leb : A -> A -> bool).
Hypothesis leb_total : forall x y, leb x y = true \/ leb y x = true.

Lemma insert_sorted_Sorted x l :
  Sorted (fun a b => leb a b = true) l ->
  Sorted (fun a b => leb a b = true) (insert_sorted leb x l).
Proof.
  induction 1 as [|y l Hl IH Hy]; simpl.
  - by repeat constructor.
  - destruct (leb x y) eqn:Hxy.
    + constructor; [by constructor|by constructor].
    + constructor; [done|].
      destruct (leb_total x y) as [Hle|Hle]; [congruence|].
      destruct l as [|z l]; simpl.
      * by constructor.
      * destruct (leb x z); constructor; [done|].
        by apply HdRel_inv in Hy.
Qed.

Lemma isort_Sorted l : Sorted (fun a b => leb a b = true) (isort leb l).
Proof.
  induction l as [|x l IH]; simpl; [constructor|].
  by apply insert_sorted_Sorted.
Qed.
End SortedFacts.

Section CrosstabLayout.
Context {I : Type} `{EqDecision I} (leb : I -> I -> bool).
Implicit Types (obs : list (@Obs I)).

Lemma crosstab_index_elem obs i :
  i ∈ index (crosstab leb obs) <-> exists o, o ∈ obs /\ o.1.1 = i.
Proof.
  cbn [crosstab index]. rewrite sorted_unique_elem, list_elem_of_fmap. split.
  - intros (k & -> & (o & -> & Ho)%list_elem_of_fmap). by exists o.
  - intros (o & Ho & <-). exists o.1. split; [done|].
    apply list_elem_of_fmap. by exists o.
Qed.

Lemma crosstab_columns_elem obs c :
  c ∈ columns (crosstab leb obs) <-> exists o, o ∈ obs /\ o.1.2 = c.
Proof.
  cbn [crosstab columns]. rewrite sorted_unique_elem, list_elem_of_fmap. split.
  - intros (k & -> & (o & -> & Ho)%list_elem_of_fmap). by exists o.
  - intros (o & Ho & <-). exists o.1. split; [done|].
    apply list_elem_of_fmap. by exists o.
Qed.

Lemma crosstab_rectangular obs :
  length (cells (crosstab leb obs)) = length (index (crosstab leb obs))
  /\ Forall (fun row => length row = length (columns (crosstab leb obs)))
            (cells (crosstab leb obs)).
Proof.
  cbn [crosstab index columns cells]. split; [by rewrite length_fmap|].
  apply Forall_fmap, Forall_forall. intros i _. simpl. by rewrite length_fmap.
Qed.

Lemma crosstab_NoDup obs :
  NoDup (index (crosstab leb obs)) /\ NoDup (columns (crosstab leb obs)).
Proof. split; apply sorted_unique_NoDup. Qed.

(** The rows a filter keeps of the rows a table brings. *)
Lemma filter_omap {A} (g : A -> option (@Obs I)) (Q : @Obs I -> Prop)
    `{!forall o, Decision (Q o)} (rows : list A) :
  filter Q (omap g rows)
  = omap (fun r => match g r with
                   | Some o => if decide (Q o) then Some o else None
                   | None => None
                   end) rows.
Proof.
  induction rows as [|r rows IH]; [done|].
  cbn [omap list_omap]. destruct (g r) as [o|]; [|done].
  rewrite filter_cons. destruct (decide (Q o)); by rewrite IH.
Qed.
End CrosstabLayout.

Lemma Z_leb_total (x y : Z) : Z.leb x y = true \/ Z.leb y x = true.
Proof. destruct (Z.leb_spec x y), (Z.leb_spec y x); auto; lia. Qed.

Section PivotLayout.
Context {F : Type} `{EqDecision F}.
Implicit Types (rows : list (@Store F)).

Lemma pivot_cell rows c o :
  cell (omap pivot_obs rows) c o
  = length (filter (fun r => City r = Some c
                             /\ OwnershipType r = Some o
                             /\ is_Some (StoreNumber r)) rows).
Proof.
  unfold cell.
  etrans; [apply (f_equal weight),
             (filter_omap pivot_obs
                (fun ob : @Obs string => ob.1.1 = c /\ ob.1.2 = o))|].
  apply weight_omap; intros r; unfold pivot_obs.
  - intros (-> & -> & [n ->]). simpl. rewrite decide_True by done.
    by eexists.
  - intros Hr.
    destruct (City r) as [c'|]; [|by left].
    destruct (OwnershipType r) as [o'|]; [|by left].
    destruct (decide _) as [[Hc Ho]|_]; [|by left]. simpl in Hc, Ho. subst.
    destruct (StoreNumber r) as [n|]; [|right; by eexists].
    destruct Hr. by repeat split.
Qed.

Lemma pivot_obs_elem rows (ob : @Obs string) :
  ob ∈ omap pivot_obs rows
  -> exists r, r ∈ rows /\ City r = Some ob.1.1
               /\ OwnershipType r = Some ob.1.2.
Proof.
  intros (r & Hr & Hob)%list_elem_of_omap. exists r. split; [done|].
  unfold pivot_obs in Hob.
  destruct (City r), (OwnershipType r); try done. by injection Hob as <-.
Qed.

Lemma pivot_obs_of_row rows r c o :
  r ∈ rows -> City r = Some c -> OwnershipType r = Some o ->
  exists n, (c, o, n) ∈ omap pivot_obs rows.
Proof.
  intros Hr Hc Ho. eexists. apply list_elem_of_omap. exists r.
  split; [done|]. unfold pivot_obs. by rewrite Hc, Ho.
Qed.

Lemma year_cell_count year_of rows y o :
  cell (omap (year_row_obs year_of) rows) y o
  = length (filter (fun r => year_cell year_of r = Some y
                             /\ OwnershipType r = Some o) rows).
Proof.
  unfold cell.
  etrans; [apply (f_equal weight),
             (filter_omap (year_row_obs year_of)
                (fun ob : @Obs Z => ob.1.1 = y /\ ob.1.2 = o))|].
  apply weight_omap; intros r; unfold year_row_obs, year_obs.
  - intros (-> & ->). simpl. rewrite decide_True by done. by eexists.
  - intros Hr.
    destruct (year_cell year_of r) as [y'|]; [|by left].
    destruct (OwnershipType r) as [o'|]; [|by left].
    destruct (decide _) as [[Hy Ho]|_]; [|by left]. simpl in Hy, Ho. subst.
    by destruct Hr.
Qed.

Lemma year_obs_elem year_of rows (ob : @Obs Z) :
  ob ∈ omap (year_row_obs year_of) rows
  <-> exists r, r ∈ rows /\ year_cell year_of r = Some ob.1.1
                /\ OwnershipType r = Some ob.1.2 /\ ob.2 = 1.
Proof.
  rewrite list_elem_of_omap. unfold year_row_obs, year_obs. split.
  - intros (r & Hr & Hob). exists r. split; [done|].
    destruct (year_cell year_of r), (OwnershipType r); try done.
    by injection Hob as <-.
  - intros (r & Hr & Hy & Ho & Hn). exists r. split; [done|].
    rewrite Hy, Ho. destruct ob as [[y o] n]. simpl in *. by subst.
Qed.
End PivotLayout.

(** X16. The pivot is a rectangle of counts: its index lists, once each
    and in ascending order, the cities of the rows that have a city and an
    ownership type, its columns the ownership types of those rows, and the
    cell of a city and a type is the number of rows with that city, that
    type and a StoreNumber (0 for a combination no row has). *)
Theorem pivot_table_layout {F : Type} `{EqDecision F}
    (filtered : list (@Store F)) :
  (NoDup (index (pivot_table filtered))
   /\ NoDup (columns (pivot_table filtered)))
  /\ (Sorted (fun a b => String.leb a b = true) (index (pivot_table filtered))
      /\ Sorted (fun a b => String.leb a b = true)
                (columns (pivot_table filtered)))
  /\ (forall c, c ∈ index (pivot_table filtered)
        <-> exists r, r ∈ filtered /\ City r = Some c
                      /\ is_Some (OwnershipType r))
  /\ (forall o, o ∈ columns (pivot_table filtered)
        <-> exists r, r ∈ filtered /\ is_Some (City r)
                      /\ OwnershipType r = Some o)
  /\ cells (pivot_table filtered)
     = (fun c =>
          (fun o => length (filter (fun r => City r = Some c
                                             /\ OwnershipType r = Some o
                                             /\ is_Some (StoreNumber r))
                                   filtered))
            <$> columns (pivot_table filtered))
         <$> index (pivot_table filtered).
Proof.
  unfold pivot_table.
  split; [apply crosstab_NoDup|].
  split; [split; apply isort_Sorted, String.leb_total|].
  split; [|split].
  - intros c. rewrite crosstab_index_elem. split.
    + intros (ob & Hob & <-). apply pivot_obs_elem in Hob as (r & Hr & Hc & Ho).
      exists r. by rewrite Ho.
    + intros (r & Hr & Hc & [o Ho]).
      destruct (pivot_obs_of_row filtered r c o) as [n Hn]; [done..|].
      by exists (c, o, n).
  - intros o. rewrite crosstab_columns_elem. split.
    + intros (ob & Hob & <-). apply pivot_obs_elem in Hob as (r & Hr & Hc & Ho).
      exists r. by rewrite Hc.
    + intros (r & Hr & [c Hc] & Ho).
      destruct (pivot_obs_of_row filtered r c o) as [n Hn]; [done..|].
      by exists (c, o, n).
  - cbn [crosstab cells index columns].
    apply Forall_fmap_ext_1, Forall_forall. intros c _.
    apply Forall_fmap_ext_1, Forall_forall. intros o _.
    apply pivot_cell.
Qed.

(** X17. The year x ownership-type counts fail only with ValueError, and
    exactly when some row's FirstSeen text is rejected by the timestamp
    parser; a missing FirstSeen does not make them fail. *)
Theorem store_counts_by_year_errors {F : Type} `{EqDecision F}
    (year_of : string -> option Z) (df : list (@Store F)) :
  (forall e, store_counts_by_year year_of df = Raise e -> e = ValueError)
  /\ ((exists e, store_counts_by_year year_of df = Raise e)
      <-> exists r s, r ∈ df /\ FirstSeen r = Some s /\ year_of s = None).
Proof.
  assert ((exists r s, r ∈ df /\ FirstSeen r = Some s /\ year_of s = None)
          \/ forall r s, r ∈ df -> FirstSeen r = Some s -> is_Some (year_of s))
    as Hcases.
  { induction df as [|r df [(r' & s & Hin & Hs & Hy)|IH]].
    - right. by intros r s ?%not_elem_of_nil.
    - left. exists r', s. split; [by right|done].
    - destruct (FirstSeen r) as [s|] eqn:Hs.
      + destruct (year_of s) as [y|] eqn:Hy.
        * right. intros r' s' [->|Hin]%elem_of_cons Hs'; [|by eapply IH].
          rewrite Hs in Hs'. injection Hs' as <-. by rewrite Hy.
        * left. exists r, s. split; [by left|done].
      + right. intros r' s' [->|Hin]%elem_of_cons Hs'; [congruence|].
        by eapply IH. }
  assert (forall e, store_counts_by_year year_of df = Raise e ->
            e = ValueError
            /\ exists r s, r ∈ df /\ FirstSeen r = Some s /\ year_of s = None)
    as Hraise.
  { intros e He. destruct Hcases as [Hbad|Hgood].
    - split; [|done]. unfold store_counts_by_year in He. clear Hbad.
      induction df as [|r df IH]; [done|].
      rewrite fmap_cons in He. cbn [apply] in He.
      unfold to_year at 1 in He.
      destruct (FirstSeen r) as [s|]; simpl in He.
      + destruct (year_of s); simpl in He; [|by injection He as <-].
        destruct (apply (to_year year_of) (FirstSeen <$> df)) eqn:Hap;
          simpl in He; [done|]. by apply IH.
      + destruct (apply (to_year year_of) (FirstSeen <$> df)) eqn:Hap;
          simpl in He; [done|]. by apply IH.
    - unfold store_counts_by_year in He.
      by rewrite (apply_to_year _ _ Hgood) in He. }
  split; [intros e He; by apply Hraise|]. split.
  - intros [e He]. by apply Hraise in He as [_ ?].
  - intros (r & s & Hr & Hs & Hy). unfold store_counts_by_year.
    destruct (apply (to_year year_of) (FirstSeen <$> df)) as [years|e] eqn:Hap;
      [|by exists e].
    assert (Some s ∈ FirstSeen <$> df) as Hin.
    { apply list_elem_of_fmap. by exists r. }
    destruct (apply_Ok_inv _ _ _ _ Hap Hin) as [y Hyear].
    unfold to_year in Hyear. by rewrite Hy in Hyear.
Qed.

(** ** The long form of the year counts *)

Section LongForm.
Context {I : Type}.
Implicit Types (idx : list I) (cols : list string).

Lemma join_rows_elem (f : I -> string -> nat) idx cols i c n :
  (i, c, n) ∈ mjoin ((fun c => (fun i => (i, c, f i c)) <$> idx) <$> cols)
  <-> i ∈ idx /\ c ∈ cols /\ n = f i c.
Proof.
  rewrite list_elem_of_join. split.
  - intros (l & Hl & (c' & -> & Hc)%list_elem_of_fmap).
    apply list_elem_of_fmap in Hl as (i' & Heq & Hi).
    injection Heq as -> -> ->. done.
  - intros (Hi & Hc & ->). exists ((fun i => (i, c, f i c)) <$> idx). split.
    + apply list_elem_of_fmap. by exists i.
    + apply list_elem_of_fmap. by exists c.
Qed.

Lemma join_rows_length (f : I -> string -> nat) idx cols :
  length (mjoin ((fun c => (fun i => (i, c, f i c)) <$> idx) <$> cols))
  = length cols * length idx.
Proof.
  induction cols as [|c cols IH]; [done|].
  rewrite fmap_cons. change (mjoin (?x :: ?l)) with (x ++ mjoin l).
  rewrite length_app, length_fmap, IH. simpl. lia.
Qed.

Lemma join_rows_NoDup (f : I -> string -> nat) idx cols :
  NoDup idx -> NoDup cols ->
  NoDup ((mjoin ((fun c => (fun i => (i, c, f i c)) <$> idx) <$> cols)).*1).
Proof.
  intros Hidx Hcols. induction Hcols as [|c cols Hc Hcols IH]; [constructor|].
  rewrite fmap_cons. change (mjoin (?x :: ?l)) with (x ++ mjoin l).
  rewrite fmap_app. apply NoDup_app. split; [|split; [|exact IH]].
  - rewrite <- list_fmap_compose. apply NoDup_fmap_2_strong; [|done].
    intros x y _ _ Heq. simpl in Heq. by injection Heq.
  - intros [i c'] Hin Hin'.
    apply list_elem_of_fmap in Hin as (t & Heq & Hin).
    apply list_elem_of_fmap in Hin as (i2 & -> & _).
    simpl in Heq. injection Heq as -> ->.
    apply list_elem_of_fmap in Hin' as ([[i3 c3] n3] & Heq & Hin').
    simpl in Heq. injection Heq as <- <-.
    apply join_rows_elem in Hin' as (_ & Hc' & _). done.
Qed.
End LongForm.

Section YearCounts.
Context {F : Type} `{EqDecision F}.
Implicit Types (df : list (@Store F)).

Lemma store_counts_by_year_Ok year_of df wide :
  store_counts_by_year year_of df = Ok wide ->
  wide = crosstab Z.leb (omap (year_row_obs year_of) df).
Proof.
  unfold store_counts_by_year. intros Hw.
  destruct (apply (to_year year_of) (FirstSeen <$> df)) as [years|e] eqn:Hap;
    [|done].
  apply apply_to_year_inv in Hap as ->. simpl in Hw.
  rewrite zip_year_obs in Hw. by injection Hw as <-.
Qed.
End YearCounts.

(** X18. When the year counts exist, their index lists, once each and in
    ascending order, the years of the rows that have a FirstSeen and an
    ownership type, their columns list the ownership types of those rows,
    and the cell of a year and a type is the number of rows of that year
    and type. *)
Theorem store_counts_by_year_layout {F : Type} `{EqDecision F}
    (year_of : string -> option Z) (df : list (@Store F)) (wide : Crosstab Z) :
  store_counts_by_year year_of df = Ok wide ->
  (NoDup (index wide) /\ NoDup (columns wide))
  /\ (Sorted (fun a b => Z.leb a b = true) (index wide)
      /\ Sorted (fun a b => String.leb a b = true) (columns wide))
  /\ (forall y, y ∈ index wide
        <-> exists r, r ∈ df /\ year_cell year_of r = Some y
                      /\ is_Some (OwnershipType r))
  /\ (forall o, o ∈ columns wide
        <-> exists r, r ∈ df /\ is_Some (year_cell year_of r)
                      /\ OwnershipType r = Some o)
  /\ cells wide
     = (fun y =>
          (fun o => length (filter (fun r => year_cell year_of r = Some y
                                             /\ OwnershipType r = Some o) df))
            <$> columns wide)
         <$> index wide.
Proof.
  intros ->%store_counts_by_year_Ok.
  split; [apply crosstab_NoDup|].
  split; [split; apply isort_Sorted; [apply Z_leb_total|apply String.leb_total]|].
  split; [|split].
  - intros y. rewrite crosstab_index_elem. split.
    + intros (ob & (r & Hr & Hy & Ho & _)%year_obs_elem & <-).
      exists r. by rewrite Ho.
    + intros (r & Hr & Hy & [o Ho]). exists (y, o, 1). split; [|done].
      apply year_obs_elem. by exists r.
  - intros o. rewrite crosstab_columns_elem. split.
    + intros (ob & (r & Hr & Hy & Ho & _)%year_obs_elem & <-).
      exists r. by rewrite Hy.
    + intros (r & Hr & [y Hy] & Ho). exists (y, o, 1). split; [|done].
      apply year_obs_elem. by exists r.
  - cbn [crosstab cells index columns].
    apply Forall_fmap_ext_1, Forall_forall. intros y _.
    apply Forall_fmap_ext_1, Forall_forall. intros o _.
    apply year_cell_count.
Qed.

Lemma store_counts_by_year_layout_witness :
  store_counts_by_year year_2013 two_stores
    = Ok (mkCrosstab [2013%Z] ["CO"; "LS"] [[1; 1]])
  /\ cells (mkCrosstab [2013%Z] ["CO"; "LS"] [[1; 1]])
     = (fun y =>
          (fun o => length (filter (fun r => year_cell year_2013 r = Some y
                                             /\ OwnershipType r = Some o)
                                   two_stores))
            <$> ["CO"; "LS"])
         <$> [2013%Z].
Proof.
  split; [reflexivity|].
  apply (store_counts_by_year_layout year_2013 two_stores
           (mkCrosstab [2013%Z] ["CO"; "LS"] [[1; 1]])).
  reflexivity.
Defined.

(** X19. The long form of the year counts has exactly one row for every
    pair of a year of the index and an ownership type of the columns,
    also for the pairs no store has, and the count of that row is the
    number of stores of that year and type. *)
Theorem store_counts_long_shape {F : Type} `{EqDecision F}
    (year_of : string -> option Z) (df : list (@Store F))
    (long : list (Z * string * nat)) :
  store_counts_long year_of df = Ok long ->
  exists wide,
    store_counts_by_year year_of df = Ok wide
    /\ length long = length (columns wide) * length (index wide)
    /\ NoDup (long.*1)
    /\ forall y o n,
         (y, o, n) ∈ long
         <-> y ∈ index wide /\ o ∈ columns wide
             /\ n = length (filter (fun r => year_cell year_of r = Some y
                                             /\ OwnershipType r = Some o) df).
Proof.
  unfold store_counts_long. intros Hlong.
  destruct (store_counts_by_year year_of df) as [wide|e] eqn:Hw; [|done].
  simpl in Hlong. injection Hlong as <-. exists wide. split; [done|].
  apply store_counts_by_year_Ok in Hw as ->.
  rewrite melt_crosstab. cbn [crosstab index columns].
  split; [apply join_rows_length|].
  split; [apply join_rows_NoDup; apply sorted_unique_NoDup|].
  intros y o n. rewrite join_rows_elem. by rewrite year_cell_count.
Qed.

Lemma store_counts_long_shape_witness :
  store_counts_long year_2013 two_stores
    = Ok [(2013%Z, "CO", 1); (2013%Z, "LS", 1)]
  /\ exists wide,
       store_counts_by_year year_2013 two_stores = Ok wide
       /\ length [(2013%Z, "CO", 1); (2013%Z, "LS", 1)]
          = length (columns wide) * length (index wide)
       /\ NoDup ([(2013%Z, "CO", 1); (2013%Z, "LS", 1)].*1)
       /\ forall y o n,
            (y, o, n) ∈ [(2013%Z, "CO", 1); (2013%Z, "LS", 1)]
            <-> y ∈ index wide /\ o ∈ columns wide
                /\ n = length (filter (fun r => year_cell year_2013 r = Some y
                                                /\ OwnershipType r = Some o)
                                      two_stores).
Proof.
  split; [reflexivity|].
  apply (store_counts_long_shape year_2013 two_stores
           [(2013%Z, "CO", 1); (2013%Z, "LS", 1)]).
  reflexivity.
Defined.
